(** * Movie catalogue backend: a model of [server.js] and its properties

    The server is an Express application with five routes over one
    Mongoose model, [Movie], and one external call, the Cloudinary upload.
    The handlers are embedded as functions over an explicit [world] (the
    [movies] collection and the buffers streamed to Cloudinary); a thrown
    error and the [try]/[catch] of each handler are an error monad.

    What the repository does not define is taken as follows.
    - The ECMAScript conversions between strings, numbers and dates, and the
      parsing of an ObjectId, are the fields of the class [Runtime]; every
      theorem holds for every runtime.
    - Cloudinary's answer to an upload is the function [cloudinary].
    - Numbers are exact rationals with the two infinities; rounding of
      doubles is not modelled.
    - Form fields are scalars; the database connection is up. *)

From Stdlib Require Import ZArith NArith QArith String Ascii List Bool Lia.
From stdpp Require Import base option list gmap strings.

Close Scope Q_scope.
Open Scope string_scope.
Open Scope N_scope.

(** ** JavaScript values *)

(** A number other than [NaN]. *)
Inductive number : Type :=
  | NegInf
  | PosInf
  | Fin (q : Q).

(** A valid [Date], as milliseconds since the epoch. *)
Definition date : Type := Z.

(** A 12-byte ObjectId as a number. *)
Definition oid : Type := N.

(** The bytes of an uploaded file, [req.file.buffer]. *)
Definition buffer : Type := list Byte.byte.

Inductive jsval : Type :=
  | JUndefined
  | JNull
  | JBool (b : bool)
  | JNaN
  | JNum (n : number)
  | JStr (s : string)
  | JDate (d : date).

Definition is_zero (n : number) : bool :=
  match n with
  | Fin q => Qeq_bool q 0
  | _ => false
  end.

(** ToBoolean: [undefined], [null], [false], [NaN], zero and the empty
    string are falsy. *)
Definition truthy (v : jsval) : bool :=
  match v with
  | JUndefined | JNull | JNaN => false
  | JBool b => b
  | JNum n => negb (is_zero n)
  | JStr s => negb (String.eqb s "")
  | JDate _ => true
  end.

(** [a || b] *)
Definition js_or (a b : jsval) : jsval := if truthy a then a else b.

Definition num_le (a b : number) : bool :=
  match a, b with
  | NegInf, _ => true
  | _, PosInf => true
  | Fin x, Fin y => Qle_bool x y
  | _, _ => false
  end.

(** A JavaScript object read as a map: a key that is not there reads as
    [undefined]. [req.body] is one. *)
Definition prop (o : gmap string jsval) (k : string) : jsval :=
  default JUndefined (o !! k).

(** ** The conversions of the runtime *)

Class Runtime : Type := {
  (** [new ObjectId(s)]: [None] when [s] is not the text of an ObjectId. *)
  castObjectId : string -> option oid;
  (** [Number(s)]: [None] is [NaN]. *)
  ToNumber : string -> option number;
  (** [n.toString()] *)
  NumberToString : number -> string;
  (** [new Date(s)] as Mongoose calls it on a string: [None] is an
      invalid date. *)
  DateOfString : string -> option date;
  (** [new Date(n)] *)
  DateOfNumber : number -> option date;
  (** [d.toString()] *)
  DateToString : date -> string;
  NumberToString_nonempty : forall n, NumberToString n <> "";
  DateToString_nonempty : forall d, DateToString d <> "";
}.

(** ** Mongoose: schema types *)

(** The result of casting a value to a schema type: the cast value, where
    [None] is [null], or a CastError. *)
Inductive cast (A : Type) : Type :=
  | Cast (v : option A)
  | CastError.
Arguments Cast {A} v.
Arguments CastError {A}.

Section Casts.
Context {rt : Runtime}.

Definition castString (v : jsval) : cast string :=
  match v with
  | JUndefined | JNull => Cast None
  | JBool b => Cast (Some (if b then "true" else "false"))
  | JNaN => Cast (Some "NaN")
  | JNum n => Cast (Some (NumberToString n))
  | JStr s => Cast (Some s)
  | JDate d => Cast (Some (DateToString d))
  end.

Definition castNumber (v : jsval) : cast number :=
  match v with
  | JUndefined | JNull => Cast None
  | JBool b => Cast (Some (Fin (if b then 1 else 0)%Q))
  | JNaN => CastError
  | JNum n => Cast (Some n)
  | JStr s =>
      if String.eqb s "" then Cast None
      else match ToNumber s with
           | Some n => Cast (Some n)
           | None => CastError
           end
  | JDate d => Cast (Some (Fin (inject_Z d)))
  end.

Definition castDate (v : jsval) : cast date :=
  match v with
  | JUndefined | JNull => Cast None
  | JBool _ | JNaN => CastError
  | JNum n =>
      match DateOfNumber n with
      | Some d => Cast (Some d)
      | None => CastError
      end
  | JStr s =>
      if String.eqb s "" then Cast None
      else match DateOfString s with
           | Some d => Cast (Some d)
           | None => CastError
           end
  | JDate d => Cast (Some d)
  end.
End Casts.

(** ** The Movie model *)

(** The six paths of [movieSchema], with the type of what each holds as
    parameters: the stored fields, the object literal given to
    [new Movie] or to [findByIdAndUpdate], and the cast of that literal are
    all instances. *)
Record paths (S N D : Type) : Type := Paths {
  title : S;
  description : S;
  imageUrl : S;
  genre : S;
  rating : N;
  releaseDate : D;
}.
Arguments Paths {S N D}.
Arguments title {S N D}.
Arguments description {S N D}.
Arguments imageUrl {S N D}.
Arguments genre {S N D}.
Arguments rating {S N D}.
Arguments releaseDate {S N D}.

(** The fields of a stored document; [None] is a path that is [null] or
    not set. *)
Abbreviation movie := (paths (option string) (option number) (option date)).

(** An object literal with the six keys. *)
Abbreviation literal := (paths jsval jsval jsval).

(** A stored document with its [_id]. *)
Record document : Type := Document {
  doc_id : oid;
  doc : movie;
}.

(** A stored path read back from a document. *)
Definition of_string (o : option string) : jsval :=
  match o with Some s => JStr s | None => JUndefined end.
Definition of_number (o : option number) : jsval :=
  match o with Some n => JNum n | None => JUndefined end.
Definition of_date (o : option date) : jsval :=
  match o with Some d => JDate d | None => JUndefined end.

(** ** Errors, responses and the world *)

Inductive error : Type :=
  | CastErr (path : string)
  | ValidationErr (failed : list string)
  | DuplicateKeyErr
  | UploadErr (message : string).

Inductive json : Type :=
  | JsonDoc (d : document)
  | JsonDocs (l : list document)
  | JsonNull
  | JsonMessage (message : string)
  | JsonFailure (message : string) (err : error).

Record response : Type := Response {
  status : N;
  sent : json;
}.

Record world : Type := World {
  movies : gmap oid movie;
  uploaded : list buffer;
}.

Record request : Type := Request {
  params_id : string;
  body : gmap string jsval;
  file : option buffer;
}.

(** Cloudinary's answer to [upload_stream]: the callback's [result] with its
    [secure_url], or its [error]. *)
Inductive upload_reply : Type :=
  | UploadOk (secure_url : string)
  | UploadFailed (message : string).

(** ** Awaited computations that may throw *)

Inductive outcome (A : Type) : Type :=
  | Returned (a : A)
  | Thrown (e : error).
Arguments Returned {A} a.
Arguments Thrown {A} e.

Definition io (A : Type) : Type := world -> outcome A * world.

Definition ret {A} (a : A) : io A := fun w => (Returned a, w).
Definition throw {A} (e : error) : io A := fun w => (Thrown e, w).
Definition bind {A B} (m : io A) (k : A -> io B) : io B :=
  fun w =>
    match m w with
    | (Returned a, w') => k a w'
    | (Thrown e, w') => (Thrown e, w')
    end.

Notation "'await' x <- m ;; k" := (bind m (fun x => k))
  (at level 10, x name, m at level 99, k at level 200).

(** [try { ... } catch (err) { ... }] around a handler whose every path
    sends a response. *)
Definition try_catch (block : io response) (handler : error -> response)
  : world -> response * world :=
  fun w =>
    match block w with
    | (Returned r, w') => (r, w')
    | (Thrown e, w') => (handler e, w')
    end.

(** ** Mongoose: the schema and the model *)

(** The options of a schema path other than its type; the type is the
    position of the path in [paths]. *)
Record path_options : Type := PathOptions {
  required : bool;
  min : option number;
  max : option number;
}.

Definition movieSchema : paths path_options path_options path_options :=
  {| title := {| required := true; min := None; max := None |};
     description := {| required := true; min := None; max := None |};
     imageUrl := {| required := true; min := None; max := None |};
     genre := {| required := true; min := None; max := None |};
     rating := {| required := true;
                  min := Some (Fin 0%Q); max := Some (Fin 10%Q) |};
     releaseDate := {| required := true; min := None; max := None |} |}.

(** The validators of a path: a cast that failed when the path was set is
    reported at validation; [required] rejects [null], and an empty string
    on a String path; [min] and [max] skip [null]. *)
Definition valid_string (o : path_options) (c : cast string) : bool :=
  match c with
  | CastError => false
  | Cast None => negb (required o)
  | Cast (Some s) => negb (required o && String.eqb s "")
  end.

Definition within (o : path_options) (n : number) : bool :=
  match min o with Some lo => num_le lo n | None => true end
  && match max o with Some hi => num_le n hi | None => true end.

Definition valid_number (o : path_options) (c : cast number) : bool :=
  match c with
  | CastError => false
  | Cast None => negb (required o)
  | Cast (Some n) => within o n
  end.

Definition valid_date (o : path_options) (c : cast date) : bool :=
  match c with
  | CastError => false
  | Cast None => negb (required o)
  | Cast (Some _) => true
  end.

(** A document under construction: what each path was cast to. *)
Abbreviation draft := (paths (cast string) (cast number) (cast date)).

Definition failing (path : string) (ok : bool) : list string :=
  if ok then [] else [path].

(** The paths that fail validation, in schema order. *)
Definition validate (d : draft) : list string :=
  failing "title" (valid_string (title movieSchema) (title d))
  ++ failing "description"
       (valid_string (description movieSchema) (description d))
  ++ failing "imageUrl" (valid_string (imageUrl movieSchema) (imageUrl d))
  ++ failing "genre" (valid_string (genre movieSchema) (genre d))
  ++ failing "rating" (valid_number (rating movieSchema) (rating d))
  ++ failing "releaseDate"
       (valid_date (releaseDate movieSchema) (releaseDate d)).

Definition value {A} (c : cast A) : option A :=
  match c with Cast v => v | CastError => None end.

Definition values (d : draft) : movie :=
  {| title := value (title d);
     description := value (description d);
     imageUrl := value (imageUrl d);
     genre := value (genre d);
     rating := value (rating d);
     releaseDate := value (releaseDate d) |}.

(** One path of an update: [undefined] is dropped from the update, any
    other value is cast and set. *)
Inductive change (A : Type) : Type :=
  | Keep
  | Set_ (v : option A).
Arguments Keep {A}.
Arguments Set_ {A} v.

Definition apply_change {A} (c : change A) (old : option A) : option A :=
  match c with Keep => old | Set_ v => v end.

Definition cast_change {A} (c : jsval -> cast A) (v : jsval)
  : option (change A) :=
  match v with
  | JUndefined => Some Keep
  | _ => match c v with
         | Cast x => Some (Set_ x)
         | CastError => None
         end
  end.

Abbreviation changes :=
  (paths (change string) (change number) (change date)).

Definition apply_changes (c : changes) (m : movie) : movie :=
  {| title := apply_change (title c) (title m);
     description := apply_change (description c) (description m);
     imageUrl := apply_change (imageUrl c) (imageUrl m);
     genre := apply_change (genre c) (genre m);
     rating := apply_change (rating c) (rating m);
     releaseDate := apply_change (releaseDate c) (releaseDate m) |}.

Section Model.
Context {rt : Runtime}.

(** [new Movie(o)]: every path is cast as it is set. *)
Definition new_Movie (o : literal) : draft :=
  {| title := castString (title o);
     description := castString (description o);
     imageUrl := castString (imageUrl o);
     genre := castString (genre o);
     rating := castNumber (rating o);
     releaseDate := castDate (releaseDate o) |}.

(** [newMovie.save()] for a new document whose [_id] is [i]: validation,
    then the insert, which the collection refuses for an [_id] it
    holds. *)
Definition save (i : oid) (d : draft) : io document :=
  fun w =>
    match validate d with
    | [] =>
        match movies w !! i with
        | Some _ => (Thrown DuplicateKeyErr, w)
        | None =>
            (Returned (Document i (values d)),
             {| movies := <[i := values d]> (movies w);
                uploaded := uploaded w |})
        end
    | failed => (Thrown (ValidationErr failed), w)
    end.

(** [Movie.find()] *)
Definition find : io (list document) :=
  fun w =>
    (Returned (map (fun p => Document (fst p) (snd p))
                   (map_to_list (movies w))), w).

(** [Movie.findById(id)] *)
Definition findById (id : string) : io (option document) :=
  fun w =>
    match castObjectId id with
    | None => (Thrown (CastErr "_id"), w)
    | Some i => (Returned (Document i <$> movies w !! i), w)
    end.

(** The cast of an update, which throws at the first path that cannot
    be cast. No validator runs on an update. *)
Definition castUpdate (u : literal) : string + changes :=
  match cast_change castString (title u) with
  | None => inl "title"
  | Some t =>
  match cast_change castString (description u) with
  | None => inl "description"
  | Some d =>
  match cast_change castString (imageUrl u) with
  | None => inl "imageUrl"
  | Some i =>
  match cast_change castString (genre u) with
  | None => inl "genre"
  | Some g =>
  match cast_change castNumber (rating u) with
  | None => inl "rating"
  | Some r =>
  match cast_change castDate (releaseDate u) with
  | None => inl "releaseDate"
  | Some rd =>
      inr {| title := t; description := d; imageUrl := i; genre := g;
             rating := r; releaseDate := rd |}
  end end end end end end.

(** [Movie.findByIdAndUpdate(id, u, { new: true })] *)
Definition findByIdAndUpdate (id : string) (u : literal)
  : io (option document) :=
  fun w =>
    match castObjectId id with
    | None => (Thrown (CastErr "_id"), w)
    | Some i =>
        match castUpdate u with
        | inl path => (Thrown (CastErr path), w)
        | inr c =>
            match movies w !! i with
            | None => (Returned None, w)
            | Some m =>
                (Returned (Some (Document i (apply_changes c m))),
                 {| movies := <[i := apply_changes c m]> (movies w);
                    uploaded := uploaded w |})
            end
        end
    end.

(** [Movie.findByIdAndDelete(id)] *)
Definition findByIdAndDelete (id : string) : io (option document) :=
  fun w =>
    match castObjectId id with
    | None => (Thrown (CastErr "_id"), w)
    | Some i =>
        (Returned (Document i <$> movies w !! i),
         {| movies := delete i (movies w); uploaded := uploaded w |})
    end.
End Model.

(** ** The handlers *)

Definition json_of (d : option document) : json :=
  match d with Some d => JsonDoc d | None => JsonNull end.

Section Handlers.
Context {rt : Runtime} (cloudinary : buffer -> upload_reply).

(** The promise around [cloudinary.v2.uploader.upload_stream]: the buffer
    is streamed, and the promise resolves to the [secure_url] of the
    result or rejects with the error. *)
Definition upload_stream (f : buffer) : io string :=
  fun w =>
    let w' := {| movies := movies w; uploaded := uploaded w ++ [f] |} in
    match cloudinary f with
    | UploadOk secure_url => (Returned secure_url, w')
    | UploadFailed message => (Thrown (UploadErr message), w')
    end.

(** [app.post("/api/movies", upload.single("image"), ...)]; [fresh] is
    the [_id] that [new Movie] draws. *)
Definition post_movies (fresh : oid) (req : request)
  : world -> response * world :=
  try_catch
    (match file req with
     | None => ret (Response 400 (JsonMessage "No file uploaded"))
     | Some f =>
         await result <- upload_stream f ;;
         let newMovie :=
           new_Movie
             {| title := prop (body req) "title";
                description := prop (body req) "description";
                imageUrl := JStr result;
                genre := prop (body req) "genre";
                rating := prop (body req) "rating";
                releaseDate := prop (body req) "releaseDate" |} in
         await savedMovie <- save fresh newMovie ;;
         ret (Response 201 (JsonDoc savedMovie))
     end)
    (fun err => Response 500 (JsonFailure "Error uploading image" err)).

(** [app.get("/api/movies", ...)] *)
Definition get_movies (req : request) : world -> response * world :=
  try_catch
    (await found <- find ;;
     ret (Response 200 (JsonDocs found)))
    (fun err => Response 500 (JsonFailure "Error fetching movies" err)).

(** [app.get("/api/movies/:id", ...)] *)
Definition get_movie (req : request) : world -> response * world :=
  try_catch
    (await found <- findById (params_id req) ;;
     match found with
     | None => ret (Response 404 (JsonMessage "Movie not found"))
     | Some d => ret (Response 200 (JsonDoc d))
     end)
    (fun err => Response 500 (JsonFailure "Error fetching movie" err)).

(** [app.put("/api/movies/:id", upload.single("image"), ...)] *)
Definition put_movie (req : request) : world -> response * world :=
  try_catch
    (await found <- findById (params_id req) ;;
     match found with
     | None => ret (Response 404 (JsonMessage "Movie not found"))
     | Some d =>
         let old := doc d in
         await url <-
           match file req with
           | Some f =>
               await result <- upload_stream f ;;
               ret (JStr result)
           | None => ret (of_string (imageUrl old))
           end ;;
         await updatedMovie <-
           findByIdAndUpdate (params_id req)
             {| title := js_or (prop (body req) "title")
                               (of_string (title old));
                description := js_or (prop (body req) "description")
                                     (of_string (description old));
                imageUrl := url;
                genre := js_or (prop (body req) "genre")
                               (of_string (genre old));
                rating := js_or (prop (body req) "rating")
                                (of_number (rating old));
                releaseDate := js_or (prop (body req) "releaseDate")
                                     (of_date (releaseDate old)) |} ;;
         ret (Response 200 (json_of updatedMovie))
     end)
    (fun err => Response 400 (JsonFailure "Error updating movie" err)).

(** [app.delete("/api/movies/:id", ...)] *)
Definition delete_movie (req : request) : world -> response * world :=
  try_catch
    (await deletedMovie <- findByIdAndDelete (params_id req) ;;
     match deletedMovie with
     | None => ret (Response 404 (JsonMessage "Movie not found"))
     | Some _ =>
         ret (Response 200 (JsonMessage "Movie deleted successfully"))
     end)
    (fun err => Response 500 (JsonFailure "Error deleting movie" err)).

(** The routes of the application. *)
Inductive route : Type :=
  | POST_movies (fresh : oid)
  | GET_movies
  | GET_movie
  | PUT_movie
  | DELETE_movie.

Definition handle (r : route) (req : request) : world -> response * world :=
  match r with
  | POST_movies fresh => post_movies fresh req
  | GET_movies => get_movies req
  | GET_movie => get_movie req
  | PUT_movie => put_movie req
  | DELETE_movie => delete_movie req
  end.

(** The world after a sequence of requests, served one after another. *)
Fixpoint serve (l : list (route * request)) (w : world) : world :=
  match l with
  | [] => w
  | (r, req) :: l' => serve l' (snd (handle r req w))
  end.
End Handlers.

(** ** A runtime to compute with

    An executable [Runtime] for the worked examples below. It reads the
    texts the examples use as Node.js does: an ObjectId of 24 hexadecimal
    digits, a decimal numeral, a calendar date [YYYY-MM-DD]. Any other
    text is read as malformed, which Node.js may not do (an exponent, a
    time of day), so the examples stay on those texts. The text of a date
    depends on the time zone of the process and never reaches a stored
    path; it is rendered as the timestamp. *)
Module Node.

Definition digit_of (c : ascii) : option N :=
  let n := N_of_ascii c in
  if (48 <=? n) && (n <=? 57) then Some (n - 48) else None.

Definition hex_of (c : ascii) : option N :=
  let n := N_of_ascii c in
  if (48 <=? n) && (n <=? 57) then Some (n - 48)
  else if (97 <=? n) && (n <=? 102) then Some (n - 87)
  else if (65 <=? n) && (n <=? 70) then Some (n - 55)
  else None.

(** The number a string of digits writes in base [b], continuing from
    [acc]. *)
Fixpoint read (dig : ascii -> option N) (b : N) (s : string) (acc : N)
  : option N :=
  match s with
  | EmptyString => Some acc
  | String c s' =>
      match dig c with
      | Some d => read dig b s' (acc * b + d)
      | None => None
      end
  end.

Definition castObjectId (s : string) : option oid :=
  if Nat.eqb (String.length s) 24 then read hex_of 16 s 0 else None.

(** The part of [s] before the first [c], and the part after it if [c]
    occurs. *)
Fixpoint split_at (c : ascii) (s : string) : string * option string :=
  match s with
  | EmptyString => (EmptyString, None)
  | String a s' =>
      if Ascii.eqb a c then (EmptyString, Some s')
      else let (l, r) := split_at c s' in (String a l, r)
  end.

Definition nonempty (s : string) : bool := negb (String.eqb s "").

(** An unsigned decimal numeral: digits, then maybe a point and
    digits. *)
Definition unsigned (s : string) : option Q :=
  match split_at "." s with
  | (i, None) =>
      if nonempty i
      then n ← read digit_of 10 i 0; Some (inject_Z (Z.of_N n))
      else None
  | (i, Some f) =>
      if nonempty i && nonempty f
      then n ← read digit_of 10 (i ++ f) 0;
           Some (Qmake (Z.of_N n) (Pos.pow 10 (Pos.of_nat (String.length f))))
      else None
  end.

Definition ToNumber (s : string) : option number :=
  match s with
  | "" => Some (Fin 0%Q)
  | "Infinity" => Some PosInf
  | "-Infinity" => Some NegInf
  | String "-" s' => q ← unsigned s'; Some (Fin (Qopp q))
  | _ => q ← unsigned s; Some (Fin q)
  end.

Definition digit (n : N) : ascii := ascii_of_N (48 + n mod 10).

(** The decimal digits of [n] before [acc]; at least one digit. *)
Fixpoint digits (fuel : nat) (n : N) (acc : string) : string :=
  let acc' := String (digit n) acc in
  match fuel with
  | O => acc'
  | S fuel' => if n / 10 =? 0 then acc' else digits fuel' (n / 10) acc'
  end.

Definition decimal (n : N) : string := digits (N.size_nat n) n "".

(** The digits of the fraction [r / d] after the point. *)
Fixpoint fraction (fuel : nat) (r d : N) : string :=
  match fuel with
  | O => ""
  | S fuel' =>
      if r =? 0 then ""
      else String (digit (r * 10 / d)) (fraction fuel' ((r * 10) mod d) d)
  end.

Definition NumberToString (n : number) : string :=
  match n with
  | NegInf => "-Infinity"
  | PosInf => "Infinity"
  | Fin q =>
      let a := Z.to_N (Z.abs (Qnum q)) in
      let d := Npos (Qden q) in
      let whole := decimal (a / d) in
      let part := fraction 20 (a mod d) d in
      let text := if nonempty part then whole ++ String "." part else whole in
      if (Qnum q <? 0)%Z then String "-" text else text
  end.

(** Days from 1970-01-01 to the civil date [y]-[m]-[d]. *)
Definition days_from_civil (y m d : Z) : Z :=
  let y' := (if m <=? 2 then y - 1 else y)%Z in
  let era := (y' / 400)%Z in
  let yoe := (y' - era * 400)%Z in
  let mp := ((m + 9) mod 12)%Z in
  let doy := ((153 * mp + 2) / 5 + d - 1)%Z in
  let doe := (yoe * 365 + yoe / 4 - yoe / 100 + doy)%Z in
  (era * 146097 + doe - 719468)%Z.

Definition field (len : nat) (s : string) : option Z :=
  if Nat.eqb (String.length s) len
  then n ← read digit_of 10 s 0; Some (Z.of_N n)
  else None.

Definition DateOfString (s : string) : option date :=
  match split_at "-" s with
  | (ys, Some rest) =>
      match split_at "-" rest with
      | (ms, Some ds) =>
          y ← field 4 ys; m ← field 2 ms; d ← field 2 ds;
          if ((1 <=? m) && (m <=? 12) && (1 <=? d) && (d <=? 31))%Z
          then Some (days_from_civil y m d * 86400000)%Z
          else None
      | _ => None
      end
  | _ => None
  end.

Definition DateOfNumber (n : number) : option date :=
  match n with
  | Fin q =>
      let t := (Qnum q ÷ Zpos (Qden q))%Z in
      if (Z.abs t <=? 8640000000000000)%Z then Some t else None
  | _ => None
  end.

Definition DateToString (d : date) : string :=
  NumberToString (Fin (inject_Z d)).

End Node.

Definition node : Runtime.
Proof.
  assert (forall fuel n acc, Node.digits fuel n acc <> "") as Hdigits.
  { induction fuel as [|fuel IH]; intros n acc; simpl.
    - discriminate.
    - destruct (n / 10 =? 0); [discriminate | apply IH]. }
  assert (forall n, Node.NumberToString n <> "") as Htext.
  { intros [| |q]; [discriminate | discriminate |].
    unfold Node.NumberToString.
    set (whole := Node.decimal _). set (part := Node.fraction _ _ _).
    assert (whole <> "") as Hwhole by apply Hdigits.
    destruct (Qnum q <? 0)%Z; [discriminate|].
    destruct (Node.nonempty part); [|exact Hwhole].
    destruct whole; [congruence | discriminate]. }
  exact {| castObjectId := Node.castObjectId;
           ToNumber := Node.ToNumber;
           NumberToString := Node.NumberToString;
           DateOfString := Node.DateOfString;
           DateOfNumber := Node.DateOfNumber;
           DateToString := Node.DateToString;
           NumberToString_nonempty := Htext;
           DateToString_nonempty := fun d => Htext (Fin (inject_Z d)) |}.
Defined.

(** ** What a request and a record are said to be *)

(** A path that holds a non-empty text, and a path that holds a value. *)
Definition filled (o : option string) : Prop :=
  exists s, o = Some s /\ s <> "".

Definition present {A} (o : option A) : Prop := exists a, o = Some a.

(** All six fields of a record are populated. *)
Definition populated (m : movie) : Prop :=
  filled (title m) /\ filled (description m) /\ filled (imageUrl m)
  /\ filled (genre m) /\ present (rating m) /\ present (releaseDate m).

Definition store_ok (w : world) : Prop :=
  forall i m, movies w !! i = Some m -> populated m.

(** The inclusive range of a rating, and its complement among numbers. *)
Definition in_0_10 (n : number) : Prop :=
  match n with
  | Fin q => (0 <= q)%Q /\ (q <= 10)%Q
  | _ => False
  end.

Definition outside_0_10 (n : number) : Prop :=
  match n with
  | Fin q => (q < 0)%Q \/ (10 < q)%Q
  | _ => True
  end.

(** The identifier is the text of the ObjectId [i]. *)
Definition names {rt : Runtime} (req : request) (i : oid) : Prop :=
  castObjectId (params_id req) = Some i.

(** The identifier is not the text of any ObjectId. *)
Definition malformed {rt : Runtime} (req : request) : Prop :=
  castObjectId (params_id req) = None.

Definition not_found : response :=
  Response 404 (JsonMessage "Movie not found").

Section Vocabulary.
Context {rt : Runtime}.

(** What the five fields of a create request are cast to. *)
Definition reads_as (b : gmap string jsval) (m : movie) : Prop :=
  castString (prop b "title") = Cast (title m)
  /\ castString (prop b "description") = Cast (description m)
  /\ castString (prop b "genre") = Cast (genre m)
  /\ castNumber (prop b "rating") = Cast (rating m)
  /\ castDate (prop b "releaseDate") = Cast (releaseDate m).

(** Valid field values: the texts are not empty, the rating is a number
    within its range, the release date is a date. *)
Definition valid_fields (m : movie) : Prop :=
  filled (title m) /\ filled (description m) /\ filled (genre m)
  /\ (exists r, rating m = Some r /\ in_0_10 r)
  /\ present (releaseDate m).

Definition with_imageUrl (url : string) (m : movie) : movie :=
  {| title := title m;
     description := description m;
     imageUrl := Some url;
     genre := genre m;
     rating := rating m;
     releaseDate := releaseDate m |}.

(** The object literal that PUT gives to [findByIdAndUpdate] for the
    stored fields [old] and the [imageUrl] it settled on. *)
Definition update_of (req : request) (old : movie) (url : jsval) : literal :=
  {| title := js_or (prop (body req) "title") (of_string (title old));
     description := js_or (prop (body req) "description")
                          (of_string (description old));
     imageUrl := url;
     genre := js_or (prop (body req) "genre") (of_string (genre old));
     rating := js_or (prop (body req) "rating") (of_number (rating old));
     releaseDate := js_or (prop (body req) "releaseDate")
                          (of_date (releaseDate old)) |}.

(** The world once the file of the request, if any, has been streamed. *)
Definition streamed (req : request) (w : world) : world :=
  match file req with
  | Some f => {| movies := movies w; uploaded := uploaded w ++ [f] |}
  | None => w
  end.

Definition refused (e : error) : response :=
  Response 400 (JsonFailure "Error updating movie" e).

(** Two requests that differ at most in the form field [imageUrl]. *)
Definition differ_only_in_imageUrl (r1 r2 : request) : Prop :=
  params_id r1 = params_id r2
  /\ file r1 = file r2
  /\ forall k, k <> "imageUrl" -> body r1 !! k = body r2 !! k.

(** A field that is omitted ([undefined], [null]) or an empty text. *)
Definition omitted_or_empty (v : jsval) : bool :=
  match v with
  | JUndefined | JNull => true
  | JStr s => String.eqb s ""
  | _ => false
  end.

(** A field that is either omitted or empty, or a value that counts as
    supplied for [||]: any value but [false], [NaN] and a numeric zero. *)
Definition clear_cut (v : jsval) : Prop :=
  omitted_or_empty v = true \/ truthy v = true.

(** The fallback of one field: the previous value when the field is
    omitted or empty, the supplied value cast to the type of the path
    otherwise. *)
Definition fallback {A} (c : jsval -> cast A) (v : jsval) (prev : option A)
  : cast A :=
  if omitted_or_empty v then Cast prev else c v.

(** The merged record, or the first path whose supplied value cannot be
    cast; [newUrl] is the URL of the upload when a file is attached. *)
Definition fallback_merge (b : gmap string jsval) (newUrl : option string)
    (m : movie) : string + movie :=
  match fallback castString (prop b "title") (title m) with
  | CastError => inl "title"
  | Cast t =>
  match fallback castString (prop b "description") (description m) with
  | CastError => inl "description"
  | Cast d =>
  match fallback castString (prop b "genre") (genre m) with
  | CastError => inl "genre"
  | Cast g =>
  match fallback castNumber (prop b "rating") (rating m) with
  | CastError => inl "rating"
  | Cast r =>
  match fallback castDate (prop b "releaseDate") (releaseDate m) with
  | CastError => inl "releaseDate"
  | Cast rd =>
      inr {| title := t; description := d;
             imageUrl := match newUrl with
                         | Some url => Some url
                         | None => imageUrl m
                         end;
             genre := g; rating := r; releaseDate := rd |}
  end end end end end.

(** The five fields that an update merges. *)
Definition merged_fields : list string :=
  ["title"; "description"; "genre"; "rating"; "releaseDate"].
End Vocabulary.

(** ** Routes: what a request addresses and what it may answer *)

Section Routes.
Context {rt : Runtime}.

(** The identifier a request addresses: the [_id] drawn for a create, the
    ObjectId of [:id] for the routes that carry one. *)
Definition target (r : route) (req : request) : option oid :=
  match r with
  | POST_movies fresh => Some fresh
  | GET_movies => None
  | GET_movie | PUT_movie | DELETE_movie => castObjectId (params_id req)
  end.

(** Whether the handler reaches its upload, given that a file is attached:
    a create always does, an update does once it has found the record. *)
Definition reaches_upload (r : route) (req : request) (w : world) : bool :=
  match r with
  | POST_movies _ => true
  | PUT_movie =>
      match castObjectId (params_id req) with
      | Some i => bool_decide (is_Some (movies w !! i))
      | None => false
      end
  | _ => false
  end.


(** The object literal that POST gives to [new Movie] once the upload has
    answered [url]. *)
Definition create_of (req : request) (url : string) : literal :=
  {| title := prop (body req) "title";
     description := prop (body req) "description";
     imageUrl := JStr url;
     genre := prop (body req) "genre";
     rating := prop (body req) "rating";
     releaseDate := prop (body req) "releaseDate" |}.

(** A record that passes the validators of [movieSchema]. *)
Definition valid_record (m : movie) : Prop :=
  populated m /\ exists r, rating m = Some r /\ in_0_10 r.

Definition store_valid (w : world) : Prop :=
  forall i m, movies w !! i = Some m -> valid_record m.

(** A sequence of requests none of which is an update. *)
Definition no_update (l : list (route * request)) : Prop :=
  Forall (fun p => fst p <> PUT_movie) l.
End Routes.

(** ** Worked examples on the [node] runtime *)

Module Examples.

Definition cdn_url : string :=
  "https://res.cloudinary.com/demo/image/upload/v1/inception.jpg".

(** A Cloudinary that stores what it is sent. *)
Definition cdn (f : buffer) : upload_reply := UploadOk cdn_url.

(** A Cloudinary that is down. *)
Definition cdn_down (f : buffer) : upload_reply :=
  UploadFailed "Request Timeout".

Definition poster : buffer := [Byte.xff; Byte.xd8; Byte.xff; Byte.xe0].

Definition id_text : string := "507f1f77bcf86cd799439011".
Definition id_value : oid := 24912482966938930280208240657.

(** The fields of a multipart form are texts. *)
Definition inception_form : gmap string jsval :=
  <["title" := JStr "Inception"]>
    (<["description" := JStr "A thief enters dreams"]>
       (<["genre" := JStr "Sci-Fi"]>
          (<["rating" := JStr "9"]>
             (<["releaseDate" := JStr "2010-07-16"]> ∅)))).

Definition inception : movie :=
  {| title := Some "Inception";
     description := Some "A thief enters dreams";
     imageUrl := Some cdn_url;
     genre := Some "Sci-Fi";
     rating := Some (Fin 9%Q);
     releaseDate := Some 1279238400000%Z |}.

Definition empty_world : world := {| movies := ∅; uploaded := [] |}.

Definition one_movie : world :=
  {| movies := <[id_value := inception]> ∅; uploaded := [poster] |}.

Definition create : request :=
  {| params_id := ""; body := inception_form; file := Some poster |}.

Definition by_id (form : gmap string jsval) (f : option buffer) : request :=
  {| params_id := id_text; body := form; file := f |}.

Definition bad_id : request :=
  {| params_id := "xyz"; body := ∅; file := None |}.

End Examples.

Import Examples.

(** ** Properties of the handlers *)

Ltac run :=
  unfold post_movies, get_movies, get_movie, put_movie, delete_movie,
    try_catch, bind, ret, throw, find, findById, findByIdAndUpdate,
    findByIdAndDelete, save, upload_stream, names, malformed, not_found in *.

Lemma world_eta (w : world) :
  {| movies := movies w; uploaded := uploaded w |} = w.
Proof. now destruct w. Qed.

Section Properties.
Context {rt : Runtime} (cloudinary : buffer -> upload_reply).

(** C3. A create request with no attached file is answered 400 with the
    message "No file uploaded"; the collection is unchanged and nothing
    is streamed to Cloudinary: the world after is the world before. *)
Theorem post_without_file (fresh : oid) (req : request) (w : world) :
  file req = None ->
  post_movies cloudinary fresh req w
  = (Response 400 (JsonMessage "No file uploaded"), w).
Proof. intros Hfile. run. now rewrite Hfile. Qed.

Lemma get_movie_cases (req : request) (w : world) :
  get_movie req w
  = (match castObjectId (params_id req) with
     | Some i =>
         match movies w !! i with
         | Some m => Response 200 (JsonDoc (Document i m))
         | None => not_found
         end
     | None =>
         Response 500 (JsonFailure "Error fetching movie" (CastErr "_id"))
     end, w).
Proof.
  run. destruct (castObjectId (params_id req)) as [i|]; [|reflexivity].
  now destruct (movies w !! i).
Qed.

(** C8, amended. GET /movies/:id answers 200 with the record when the
    identifier names a stored record, 404 when it names none, and 500
    with the cast error when it is malformed; the world is unchanged. *)
Theorem get_movie_answers (req : request) (w : world) :
  (forall i m, names req i -> movies w !! i = Some m ->
     get_movie req w = (Response 200 (JsonDoc (Document i m)), w))
  /\ (forall i, names req i -> movies w !! i = None ->
       get_movie req w = (not_found, w))
  /\ (malformed req ->
       get_movie req w
       = (Response 500 (JsonFailure "Error fetching movie" (CastErr "_id")),
          w)).
Proof.
  rewrite get_movie_cases. unfold names, malformed.
  repeat split.
  - intros i m -> ->. reflexivity.
  - intros i -> ->. reflexivity.
  - intros ->. reflexivity.
Qed.

(** C10. For a malformed identifier PUT answers 400 and DELETE answers
    500, neither 404, and both leave the world as it was. *)
Theorem malformed_put_delete (req : request) (w : world) :
  malformed req ->
  put_movie cloudinary req w
  = (Response 400 (JsonFailure "Error updating movie" (CastErr "_id")), w)
  /\ delete_movie req w
     = (Response 500 (JsonFailure "Error deleting movie" (CastErr "_id")), w).
Proof. intros Hid. run. now rewrite Hid. Qed.

(** C5. DELETE /movies/:id on an identifier that names no record answers
    404 and leaves the world unchanged; on one that names a record it
    answers 200 with the confirmation, the collection loses exactly that
    record, and a GET of that identifier on the world after answers
    404. *)
Theorem delete_movie_answers (req : request) (w : world) (i : oid) :
  names req i ->
  match movies w !! i with
  | None => delete_movie req w = (not_found, w)
  | Some _ =>
      let w' := {| movies := delete i (movies w); uploaded := uploaded w |} in
      delete_movie req w
      = (Response 200 (JsonMessage "Movie deleted successfully"), w')
      /\ forall req', names req' i -> get_movie req' w' = (not_found, w')
  end.
Proof.
  intros Hid. destruct (movies w !! i) as [m|] eqn:Hm.
  - split.
    + run. now rewrite Hid, Hm.
    + intros req' Hid'. rewrite get_movie_cases.
      unfold names in Hid'. rewrite Hid'. cbn [movies].
      now rewrite lookup_delete_eq.
  - run. rewrite Hid, Hm. cbn.
    rewrite delete_id by exact Hm. now rewrite world_eta.
Qed.

(** *** Create *)

Lemma validate_nil (d : draft) :
  validate d = []
  <-> valid_string (title movieSchema) (title d) = true
      /\ valid_string (description movieSchema) (description d) = true
      /\ valid_string (imageUrl movieSchema) (imageUrl d) = true
      /\ valid_string (genre movieSchema) (genre d) = true
      /\ valid_number (rating movieSchema) (rating d) = true
      /\ valid_date (releaseDate movieSchema) (releaseDate d) = true.
Proof.
  unfold validate, failing.
  destruct (valid_string _ (title d)), (valid_string _ (description d)),
    (valid_string _ (imageUrl d)), (valid_string _ (genre d)),
    (valid_number _ (rating d)), (valid_date _ (releaseDate d));
    cbn; intuition congruence.
Qed.

Lemma valid_string_filled (c : cast string) :
  valid_string (PathOptions true None None) c = true <-> filled (value c).
Proof.
  unfold filled. destruct c as [[s|]|]; cbn.
  - destruct (String.eqb_spec s ""); split.
    + discriminate.
    + intros (s' & [= <-] & Hs). contradiction.
    + eauto.
    + reflexivity.
  - split; [discriminate | intros (s & [=] & _)].
  - split; [discriminate | intros (s & [=] & _)].
Qed.

Lemma within_rating (n : number) :
  within (rating movieSchema) n = true <-> in_0_10 n.
Proof.
  unfold within. cbn. destruct n as [| |q]; cbn.
  - split; [discriminate | contradiction].
  - split; [discriminate | contradiction].
  - rewrite andb_true_iff, !Qle_bool_iff. reflexivity.
Qed.

Lemma outside_not_in (n : number) : outside_0_10 n -> ~ in_0_10 n.
Proof.
  destruct n as [| |q]; cbn; try tauto.
  intros [H|H] [H0 H10].
  - exact (Qlt_not_le _ _ H H0).
  - exact (Qlt_not_le _ _ H H10).
Qed.

(** C1. A create request that carries a file, whose upload returns the
    URL [url], and whose fields are valid, is answered 201 with the
    stored record; the record's [imageUrl] is [url], it is in the
    collection under the assigned identifier, and a GET of that
    identifier on the world after answers 200 with the same record. *)
Theorem post_creates (fresh : oid) (req : request) (w : world)
    (f : buffer) (url : string) (m : movie) :
  file req = Some f ->
  cloudinary f = UploadOk url ->
  url <> "" ->
  reads_as (body req) m ->
  valid_fields m ->
  movies w !! fresh = None ->
  let saved := with_imageUrl url m in
  let w' := {| movies := <[fresh := saved]> (movies w);
               uploaded := uploaded w ++ [f] |} in
  post_movies cloudinary fresh req w
  = (Response 201 (JsonDoc (Document fresh saved)), w')
  /\ imageUrl saved = Some url
  /\ movies w' !! fresh = Some saved
  /\ forall req', names req' fresh ->
       get_movie req' w'
       = (Response 200 (JsonDoc (Document fresh saved)), w').
Proof.
  intros Hfile Hup Hurl (Ht & Hd & Hg & Hr & Hrd)
    (Pt & Pd & Pg & (r & Hrat & Hin) & Prd) Hfresh saved w'.
  assert (movies w' !! fresh = Some saved) as Hstored
    by (subst w'; cbn; apply lookup_insert_eq).
  repeat split; try assumption.
  - run. rewrite Hfile, Hup. cbn [movies uploaded].
    set (d := new_Movie _).
    assert (values d = saved) as Hvalues.
    { subst d saved. unfold new_Movie, values, with_imageUrl. cbn.
      now rewrite Ht, Hd, Hg, Hr, Hrd. }
    assert (validate d = []) as ->.
    { apply validate_nil. subst d. unfold new_Movie. cbn -[valid_string].
      rewrite Ht, Hd, Hg, Hr, Hrd.
      repeat split; try (apply valid_string_filled; cbn; assumption).
      - apply valid_string_filled. cbn. unfold filled. eauto.
      - cbn -[within]. rewrite Hrat. now apply within_rating.
      - destruct Prd as [x ->]. reflexivity. }
    rewrite Hfresh, Hvalues. reflexivity.
  - intros req' Hid. rewrite get_movie_cases.
    unfold names in Hid. now rewrite Hid, Hstored.
Qed.

(** C4. A create request whose rating is a number outside [0, 10] is
    rejected: the collection is unchanged, and the answer is the 400 of
    a missing file or a 500 with the error. *)
Theorem post_rating_out_of_range (fresh : oid) (req : request) (w : world)
    (r : number) :
  castNumber (prop (body req) "rating") = Cast (Some r) ->
  outside_0_10 r ->
  movies (snd (post_movies cloudinary fresh req w)) = movies w
  /\ (fst (post_movies cloudinary fresh req w)
      = Response 400 (JsonMessage "No file uploaded")
      \/ exists e, fst (post_movies cloudinary fresh req w)
                   = Response 500 (JsonFailure "Error uploading image" e)).
Proof.
  intros Hcast Hout. run.
  destruct (file req) as [f|]; [|cbn; auto].
  destruct (cloudinary f) as [url|msg]; [|cbn; eauto].
  cbn [movies uploaded]. set (d := new_Movie _).
  destruct (validate d) as [|p ps] eqn:Hv; [|cbn; eauto].
  exfalso. apply validate_nil in Hv as (_ & _ & _ & _ & Hr & _).
  subst d. unfold new_Movie in Hr. cbn -[within] in Hr.
  rewrite Hcast in Hr. cbn -[within] in Hr.
  apply within_rating in Hr. exact (outside_not_in r Hout Hr).
Qed.

(** *** Update *)

Lemma castUpdate_inr (u : literal) (c : changes) :
  castUpdate u = inr c ->
  cast_change castString (title u) = Some (title c)
  /\ cast_change castString (description u) = Some (description c)
  /\ cast_change castString (imageUrl u) = Some (imageUrl c)
  /\ cast_change castString (genre u) = Some (genre c)
  /\ cast_change castNumber (rating u) = Some (rating c)
  /\ cast_change castDate (releaseDate u) = Some (releaseDate c).
Proof.
  unfold castUpdate.
  destruct (cast_change castString (title u)); [|discriminate].
  destruct (cast_change castString (description u)); [|discriminate].
  destruct (cast_change castString (imageUrl u)); [|discriminate].
  destruct (cast_change castString (genre u)); [|discriminate].
  destruct (cast_change castNumber (rating u)); [|discriminate].
  destruct (cast_change castDate (releaseDate u)); [|discriminate].
  intros [= <-]. cbn. auto 10.
Qed.

(** A stored path written back to itself is kept. *)
Lemma cast_change_of_string (old : option string) (ch : change string) :
  cast_change castString (of_string old) = Some ch ->
  apply_change ch old = old.
Proof. destruct old; cbn; now intros [= <-]. Qed.

Lemma cast_change_of_number (old : option number) (ch : change number) :
  cast_change castNumber (of_number old) = Some ch ->
  apply_change ch old = old.
Proof. destruct old; cbn; now intros [= <-]. Qed.

Lemma cast_change_of_date (old : option date) (ch : change date) :
  cast_change castDate (of_date old) = Some ch ->
  apply_change ch old = old.
Proof. destruct old; cbn; now intros [= <-]. Qed.

(** PUT on a record that exists, path by path. *)
Lemma put_movie_found (req : request) (w : world) (i : oid) (m : movie) :
  names req i ->
  movies w !! i = Some m ->
  put_movie cloudinary req w
  = match
      match file req with
      | Some f =>
          match cloudinary f with
          | UploadOk url => inr (JStr url)
          | UploadFailed msg => inl msg
          end
      | None => inr (of_string (imageUrl m))
      end
    with
    | inl msg => (refused (UploadErr msg), streamed req w)
    | inr url =>
        match castUpdate (update_of req m url) with
        | inl path => (refused (CastErr path), streamed req w)
        | inr c =>
            (Response 200 (JsonDoc (Document i (apply_changes c m))),
             {| movies := <[i := apply_changes c m]> (movies w);
                uploaded := uploaded (streamed req w) |})
        end
    end.
Proof.
  intros Hid Hm. run. unfold streamed, refused, update_of.
  rewrite Hid, Hm. cbn [fmap option_fmap option_map doc].
  destruct (file req) as [f|].
  - destruct (cloudinary f) as [url|msg]; [|reflexivity].
    cbn [movies uploaded]. rewrite Hm.
    now destruct (castUpdate _).
  - rewrite Hm. now destruct (castUpdate _).
Qed.

(** C6. An update of an existing record with no file attached leaves the
    stored [imageUrl] of that record as it was, whatever the fields of
    the request and whether the update is applied or refused. *)
Theorem put_without_file_keeps_imageUrl (req : request) (w : world)
    (i : oid) (m : movie) :
  names req i ->
  movies w !! i = Some m ->
  file req = None ->
  imageUrl <$> movies (snd (put_movie cloudinary req w)) !! i
  = Some (imageUrl m).
Proof.
  intros Hid Hm Hfile. rewrite (put_movie_found req w i m Hid Hm).
  unfold streamed. rewrite Hfile.
  destruct (castUpdate _) as [path|c] eqn:Hc; cbn [snd movies].
  - now rewrite Hm.
  - rewrite lookup_insert_eq. cbn. f_equal.
    apply castUpdate_inr in Hc as (_ & _ & Hi & _). cbn in Hi.
    now apply cast_change_of_string.
Qed.

(** C9. A form field [imageUrl] sent by the client is never read: two
    create requests, or two update requests, that differ only in it get
    the same answer and leave the same world, so the stored [imageUrl]
    is the same. *)
Theorem client_imageUrl_ignored (fresh : oid) (r1 r2 : request) (w : world) :
  differ_only_in_imageUrl r1 r2 ->
  post_movies cloudinary fresh r1 w = post_movies cloudinary fresh r2 w
  /\ put_movie cloudinary r1 w = put_movie cloudinary r2 w.
Proof.
  intros (Hid & Hfile & Hbody).
  assert (forall k, k <> "imageUrl" -> prop (body r1) k = prop (body r2) k)
    as Hprop by (intros k Hk; unfold prop; now rewrite Hbody).
  run. rewrite Hid, Hfile.
  rewrite !(Hprop "title"), !(Hprop "description"), !(Hprop "genre"),
    !(Hprop "rating"), !(Hprop "releaseDate") by discriminate.
  split; reflexivity.
Qed.

(** *** The populated-record invariant *)

Lemma cast_change_truthy {A} (c : jsval -> cast A) (v : jsval) :
  truthy v = true ->
  cast_change c v
  = match c v with Cast x => Some (Set_ x) | CastError => None end.
Proof. destruct v; cbn; (discriminate || reflexivity). Qed.

Lemma truthy_text (s : string) : truthy (JStr s) = true -> s <> "".
Proof. cbn. now destruct (String.eqb_spec s ""). Qed.

Lemma merged_string_filled (v : jsval) (old : option string)
    (ch : change string) :
  filled old ->
  cast_change castString (js_or v (of_string old)) = Some ch ->
  filled (apply_change ch old).
Proof.
  intros Hold. unfold js_or. destruct (truthy v) eqn:Hv.
  - rewrite cast_change_truthy by exact Hv.
    destruct v as [| |b| |n|s|d]; try discriminate;
      cbn; intros [= <-]; cbn; eexists; (split; [reflexivity|]).
    + cbn in Hv. now subst b.
    + apply NumberToString_nonempty.
    + now apply truthy_text.
    + apply DateToString_nonempty.
  - intros Hch. now rewrite (cast_change_of_string _ _ Hch).
Qed.

Lemma merged_number_present (v : jsval) (old : option number)
    (ch : change number) :
  present old ->
  cast_change castNumber (js_or v (of_number old)) = Some ch ->
  present (apply_change ch old).
Proof.
  intros Hold. unfold js_or, present. destruct (truthy v) eqn:Hv.
  - rewrite cast_change_truthy by exact Hv.
    destruct v as [| |b| |n|s|d]; try discriminate; cbn.
    + intros [= <-]. cbn. eauto.
    + intros [= <-]. cbn. eauto.
    + apply truthy_text in Hv. destruct (String.eqb_spec s ""); [easy|].
      destruct (ToNumber s); [|discriminate]. intros [= <-]. cbn. eauto.
    + intros [= <-]. cbn. eauto.
  - intros Hch. now rewrite (cast_change_of_number _ _ Hch).
Qed.

Lemma merged_date_present (v : jsval) (old : option date)
    (ch : change date) :
  present old ->
  cast_change castDate (js_or v (of_date old)) = Some ch ->
  present (apply_change ch old).
Proof.
  intros Hold. unfold js_or, present. destruct (truthy v) eqn:Hv.
  - rewrite cast_change_truthy by exact Hv.
    destruct v as [| |b| |n|s|d]; try discriminate; cbn.
    + destruct (DateOfNumber n); [|discriminate].
      intros [= <-]. cbn. eauto.
    + apply truthy_text in Hv. destruct (String.eqb_spec s ""); [easy|].
      destruct (DateOfString s); [|discriminate]. intros [= <-]. cbn. eauto.
    + intros [= <-]. cbn. eauto.
  - intros Hch. now rewrite (cast_change_of_date _ _ Hch).
Qed.

Lemma store_ok_same (w w' : world) :
  movies w' = movies w -> store_ok w -> store_ok w'.
Proof. unfold store_ok. intros ->. auto. Qed.

Lemma store_ok_insert (w w' : world) (i : oid) (m : movie) :
  movies w' = <[i := m]> (movies w) ->
  populated m -> store_ok w -> store_ok w'.
Proof.
  unfold store_ok. intros -> Hm Hw j m' Hj.
  apply lookup_insert_Some in Hj as [[_ <-]|[_ Hj]]; eauto.
Qed.

Lemma valid_number_present (o : path_options) (c : cast number) :
  required o = true -> valid_number o c = true -> present (value c).
Proof.
  intros Hreq. unfold present. destruct c as [[n|]|]; cbn; eauto.
  - rewrite Hreq. discriminate.
  - discriminate.
Qed.

Lemma valid_date_present (o : path_options) (c : cast date) :
  required o = true -> valid_date o c = true -> present (value c).
Proof.
  intros Hreq. unfold present. destruct c as [[n|]|]; cbn; eauto.
  - rewrite Hreq. discriminate.
  - discriminate.
Qed.

Lemma validate_populated (d : draft) :
  validate d = [] -> populated (values d).
Proof.
  intros (Ht & Hd & Hi & Hg & Hr & Hrd)%validate_nil.
  unfold populated, values. cbn [title description imageUrl genre rating
    releaseDate].
  repeat split; try (now apply valid_string_filled).
  - now apply (valid_number_present (rating movieSchema)).
  - now apply (valid_date_present (releaseDate movieSchema)).
Qed.

Lemma post_movies_preserves (fresh : oid) (req : request) (w : world) :
  store_ok w -> store_ok (snd (post_movies cloudinary fresh req w)).
Proof.
  intros Hw. run. destruct (file req) as [f|]; [|exact Hw].
  destruct (cloudinary f) as [url|msg];
    [|now apply (store_ok_same w)].
  cbn [movies uploaded]. set (d := new_Movie _).
  destruct (validate d) as [|p ps] eqn:Hv;
    [|now apply (store_ok_same w)].
  destruct (movies w !! fresh); [now apply (store_ok_same w)|].
  eapply (store_ok_insert w); [reflexivity| |exact Hw].
  now apply validate_populated.
Qed.

Lemma delete_movie_preserves (req : request) (w : world) :
  store_ok w -> store_ok (snd (delete_movie req w)).
Proof.
  intros Hw. run. destruct (castObjectId (params_id req)) as [i|];
    [|exact Hw].
  assert (store_ok {| movies := delete i (movies w);
                      uploaded := uploaded w |}) as Hdel.
  { intros j m Hj. cbn in Hj. apply lookup_delete_Some in Hj as [_ Hj].
    now apply (Hw j). }
  now destruct (movies w !! i).
Qed.

Section Uploads.
(** Cloudinary answers an upload with a URL, which is not empty. *)
Hypothesis secure_url_nonempty :
  forall f url, cloudinary f = UploadOk url -> url <> "".

Lemma update_populated (req : request) (m : movie) (url : jsval)
    (c : changes) :
  populated m ->
  (url = of_string (imageUrl m) \/ exists u, url = JStr u /\ u <> "") ->
  castUpdate (update_of req m url) = inr c ->
  populated (apply_changes c m).
Proof.
  intros (Pt & Pd & Pi & Pg & Pr & Prd) Hurl
    (Ht & Hd & Hi & Hg & Hr & Hrd)%castUpdate_inr.
  cbn in Ht, Hd, Hi, Hg, Hr, Hrd. unfold populated, apply_changes.
  cbn [title description imageUrl genre rating releaseDate].
  repeat split; eauto using merged_string_filled, merged_number_present,
    merged_date_present.
  destruct Hurl as [->|(u & -> & Hu)].
  - now rewrite (cast_change_of_string _ _ Hi).
  - cbn in Hi. injection Hi as <-. cbn. unfold filled. eauto.
Qed.

Lemma put_movie_preserves (req : request) (w : world) :
  store_ok w -> store_ok (snd (put_movie cloudinary req w)).
Proof.
  intros Hw.
  destruct (castObjectId (params_id req)) as [i|] eqn:Hid;
    [|run; now rewrite Hid].
  destruct (movies w !! i) as [m|] eqn:Hm;
    [|run; now rewrite Hid, Hm].
  rewrite (put_movie_found req w i m Hid Hm).
  assert (store_ok (streamed req w)) as Hs
    by (apply (store_ok_same w); [unfold streamed; now destruct (file req)
                                 | exact Hw]).
  assert (forall url c,
            (url = of_string (imageUrl m)
             \/ exists u, url = JStr u /\ u <> "") ->
            castUpdate (update_of req m url) = inr c ->
            store_ok {| movies := <[i := apply_changes c m]> (movies w);
                        uploaded := uploaded (streamed req w) |}) as Hok.
  { intros url c Hurl Hc.
    eapply (store_ok_insert w); [reflexivity| |exact Hw].
    eapply update_populated; eauto. }
  destruct (file req) as [f|].
  - destruct (cloudinary f) as [url|msg] eqn:Hup; [|exact Hs].
    destruct (castUpdate _) as [path|c] eqn:Hc; [exact Hs|].
    apply (Hok (JStr url)); eauto.
  - destruct (castUpdate _) as [path|c] eqn:Hc; [exact Hs|].
    apply (Hok (of_string (imageUrl m))); auto.
Qed.

Lemma handle_preserves (r : route) (req : request) (w : world) :
  store_ok w -> store_ok (snd (handle cloudinary r req w)).
Proof.
  intros Hw. destruct r as [fresh| | | |]; cbn [handle].
  - now apply post_movies_preserves.
  - exact Hw.
  - rewrite get_movie_cases. exact Hw.
  - now apply put_movie_preserves.
  - now apply delete_movie_preserves.
Qed.

(** C7. The records of the collection keep all six fields populated
    with non-empty values through every request: if every stored
    record is populated, so is every stored record after any sequence
    of requests to the five routes. *)
Theorem populated_preserved (l : list (route * request)) (w : world) :
  store_ok w -> store_ok (serve cloudinary l w).
Proof.
  revert w. induction l as [|[r req] l IH]; intros w Hw; cbn [serve].
  - exact Hw.
  - now apply IH, handle_preserves.
Qed.
End Uploads.

(** *** The merge of an update, as the specification words it *)

Lemma omitted_falsy (v : jsval) :
  omitted_or_empty v = true -> truthy v = false.
Proof. destruct v; cbn; try discriminate; try reflexivity. now intros ->. Qed.

Lemma truthy_supplied (v : jsval) :
  truthy v = true -> omitted_or_empty v = false.
Proof.
  destruct v; cbn; try discriminate; try reflexivity.
  now destruct (String.eqb _ _).
Qed.

(** On a clear-cut field, casting [v || previous] is the fallback. *)
Lemma fallback_agrees {A} (c : jsval -> cast A) (back : option A -> jsval)
    (v : jsval) (prev : option A) :
  (forall old, exists ch,
      cast_change c (back old) = Some ch /\ apply_change ch old = old) ->
  clear_cut v ->
  match cast_change c (js_or v (back prev)) with
  | Some ch => fallback c v prev = Cast (apply_change ch prev)
  | None => fallback c v prev = CastError
  end.
Proof.
  intros Hback [Hv|Hv]; unfold js_or, fallback.
  - rewrite (omitted_falsy v Hv), Hv.
    destruct (Hback prev) as (ch & -> & ->). reflexivity.
  - rewrite Hv, (truthy_supplied v Hv), (cast_change_truthy c v Hv).
    now destruct (c v).
Qed.

Lemma back_string (old : option string) :
  exists ch, cast_change castString (of_string old) = Some ch
             /\ apply_change ch old = old.
Proof. destruct old; cbn; eauto. Qed.

Lemma back_number (old : option number) :
  exists ch, cast_change castNumber (of_number old) = Some ch
             /\ apply_change ch old = old.
Proof. destruct old; cbn; eauto. Qed.

Lemma back_date (old : option date) :
  exists ch, cast_change castDate (of_date old) = Some ch
             /\ apply_change ch old = old.
Proof. destruct old; cbn; eauto. Qed.

Lemma castUpdate_is_fallback_merge (req : request) (m : movie)
    (url : jsval) (newUrl : option string) :
  (forall k, In k merged_fields -> clear_cut (prop (body req) k)) ->
  (exists ch, cast_change castString url = Some ch
              /\ apply_change ch (imageUrl m)
                 = match newUrl with
                   | Some u => Some u
                   | None => imageUrl m
                   end) ->
  match castUpdate (update_of req m url) with
  | inl path => fallback_merge (body req) newUrl m = inl path
  | inr c => fallback_merge (body req) newUrl m = inr (apply_changes c m)
  end.
Proof.
  intros Hclear (chi & Hurl & Hi).
  pose proof (fallback_agrees castString of_string _ (title m) back_string
                (Hclear "title" ltac:(cbn; auto))) as Ht.
  pose proof (fallback_agrees castString of_string _ (description m)
                back_string (Hclear "description" ltac:(cbn; auto))) as Hd.
  pose proof (fallback_agrees castString of_string _ (genre m) back_string
                (Hclear "genre" ltac:(cbn; auto))) as Hg.
  pose proof (fallback_agrees castNumber of_number _ (rating m) back_number
                (Hclear "rating" ltac:(cbn; auto))) as Hr.
  pose proof (fallback_agrees castDate of_date _ (releaseDate m) back_date
                (Hclear "releaseDate" ltac:(cbn; auto 10))) as Hrd.
  unfold castUpdate, fallback_merge, update_of.
  cbn [title description imageUrl genre rating releaseDate].
  destruct (cast_change castString (js_or _ (of_string (title m))));
    rewrite Ht; [|reflexivity].
  destruct (cast_change castString (js_or _ (of_string (description m))));
    rewrite Hd; [|reflexivity].
  rewrite Hurl.
  destruct (cast_change castString (js_or _ (of_string (genre m))));
    rewrite Hg; [|reflexivity].
  destruct (cast_change castNumber _); rewrite Hr; [|reflexivity].
  destruct (cast_change castDate _); rewrite Hrd; [|reflexivity].
  unfold apply_changes.
  cbn [title description imageUrl genre rating releaseDate].
  now rewrite Hi.
Qed.

(** C2, amended. For an existing record and an update request whose
    fields are each either omitted or empty, or a value other than
    [false], [NaN] and a numeric zero, PUT applies the per-field
    fallback merge: an omitted or empty field keeps its previous value, a
    supplied field is set to the supplied value cast to its type (the
    text "0" sets the rating to 0), and with a file attached [imageUrl]
    is the URL of the upload, otherwise it is kept. The answer is 200
    with the merged record, which is stored. When the upload fails or a
    supplied value cannot be cast, the answer is 400 and the collection
    is unchanged. *)
Theorem put_applies_fallback_merge (req : request) (w : world) (i : oid)
    (m : movie) :
  names req i ->
  movies w !! i = Some m ->
  (forall k, In k merged_fields -> clear_cut (prop (body req) k)) ->
  put_movie cloudinary req w
  = match cloudinary <$> file req with
    | Some (UploadFailed msg) => (refused (UploadErr msg), streamed req w)
    | reply =>
        let newUrl := match reply with
                      | Some (UploadOk url) => Some url
                      | _ => None
                      end in
        match fallback_merge (body req) newUrl m with
        | inl path => (refused (CastErr path), streamed req w)
        | inr m' =>
            (Response 200 (JsonDoc (Document i m')),
             {| movies := <[i := m']> (movies w);
                uploaded := uploaded (streamed req w) |})
        end
    end.
Proof.
  intros Hid Hm Hclear. rewrite (put_movie_found req w i m Hid Hm).
  destruct (file req) as [f|]; cbn [fmap option_fmap option_map].
  - destruct (cloudinary f) as [url|msg]; [|reflexivity].
    pose proof (castUpdate_is_fallback_merge req m (JStr url) (Some url)
                  Hclear ltac:(cbn; eauto)) as H.
    destruct (castUpdate _); now rewrite H.
  - pose proof (castUpdate_is_fallback_merge req m (of_string (imageUrl m))
                  None Hclear (back_string _)) as H.
    destruct (castUpdate _); now rewrite H.
Qed.
End Properties.

(** ** Further properties of the handlers *)

Section Coverage.
Context {rt : Runtime} (cloudinary : buffer -> upload_reply).

(** POST, path by path. *)
Lemma post_movies_cases (fresh : oid) (req : request) (w : world) :
  post_movies cloudinary fresh req w
  = match file req with
    | None => (Response 400 (JsonMessage "No file uploaded"), w)
    | Some f =>
        let w1 := {| movies := movies w; uploaded := uploaded w ++ [f] |} in
        let failed e :=
          (Response 500 (JsonFailure "Error uploading image" e), w1) in
        match cloudinary f with
        | UploadFailed msg => failed (UploadErr msg)
        | UploadOk url =>
            let d := new_Movie (create_of req url) in
            match validate d with
            | [] =>
                match movies w !! fresh with
                | Some _ => failed DuplicateKeyErr
                | None =>
                    (Response 201 (JsonDoc (Document fresh (values d))),
                     {| movies := <[fresh := values d]> (movies w);
                        uploaded := uploaded w ++ [f] |})
                end
            | p :: ps => failed (ValidationErr (p :: ps))
            end
        end
    end.
Proof.
  run. unfold create_of. destruct (file req) as [f|]; [|reflexivity].
  destruct (cloudinary f) as [url|msg]; [|reflexivity].
  cbn [movies uploaded]. destruct (validate _); [|reflexivity].
  now destruct (movies w !! fresh).
Qed.

(** DELETE, path by path. *)
Lemma delete_movie_cases (req : request) (w : world) :
  delete_movie req w
  = match castObjectId (params_id req) with
    | None =>
        (Response 500 (JsonFailure "Error deleting movie" (CastErr "_id")), w)
    | Some i =>
        match movies w !! i with
        | Some _ =>
            (Response 200 (JsonMessage "Movie deleted successfully"),
             {| movies := delete i (movies w); uploaded := uploaded w |})
        | None => (not_found, w)
        end
    end.
Proof.
  run. destruct (castObjectId (params_id req)) as [i|]; [|reflexivity].
  destruct (movies w !! i) eqn:Hm; cbn [fmap option_fmap option_map];
    [reflexivity|].
  rewrite delete_id by exact Hm. now rewrite world_eta.
Qed.

(** PUT on an identifier that is malformed or names no record. *)
Lemma put_movie_missing (req : request) (w : world) :
  match castObjectId (params_id req) with
  | None =>
      put_movie cloudinary req w = (refused (CastErr "_id"), w)
  | Some i =>
      movies w !! i = None -> put_movie cloudinary req w = (not_found, w)
  end.
Proof.
  run. unfold refused.
  destruct (castObjectId (params_id req)) as [i|]; [|reflexivity].
  now intros ->.
Qed.

Lemma map_elem_of {A B} (f : A -> B) (l : list A) (y : B) :
  In y (map f l) <-> exists x, y = f x /\ x ∈ l.
Proof.
  rewrite in_map_iff. split; intros (x & H1 & H2); exists x.
  - split; [easy | now apply list_elem_of_In].
  - split; [easy | now apply list_elem_of_In].
Qed.

Lemma map_is_fmap {A B} (f : A -> B) (l : list A) : map f l = f <$> l.
Proof. induction l as [|a l IH]; cbn; [reflexivity | now rewrite IH]. Qed.

(** X1. GET /movies answers 200 with a list that holds exactly the stored
    documents, each identifier once, and leaves the world as it was. *)
Theorem get_movies_lists_collection (req : request) (w : world) :
  exists l,
    get_movies req w = (Response 200 (JsonDocs l), w)
    /\ NoDup (map doc_id l)
    /\ length l = size (movies w)
    /\ forall i m, In (Document i m) l <-> movies w !! i = Some m.
Proof.
  eexists. split; [reflexivity|]. split; [|split].
  - rewrite map_map. cbn [doc_id]. rewrite map_is_fmap.
    apply NoDup_fst_map_to_list.
  - rewrite length_map. apply length_map_to_list.
  - intros i m. rewrite map_elem_of. split.
    + intros ([j m'] & [= -> ->] & Hin). now apply elem_of_map_to_list.
    + intros Hm. exists (i, m). split; [reflexivity|].
      now apply elem_of_map_to_list.
Qed.
(** X2. When a file is attached and Cloudinary refuses it, POST answers
    500 with Cloudinary's message; the buffer has been streamed and no
    record is stored. *)
Theorem post_upload_refused (fresh : oid) (req : request) (w : world)
    (f : buffer) (msg : string) :
  file req = Some f ->
  cloudinary f = UploadFailed msg ->
  post_movies cloudinary fresh req w
  = (Response 500 (JsonFailure "Error uploading image" (UploadErr msg)),
     {| movies := movies w; uploaded := uploaded w ++ [f] |}).
Proof. intros Hf Hup. rewrite post_movies_cases, Hf. cbn. now rewrite Hup. Qed.

Lemma omitted_string_invalid (v : jsval) :
  omitted_or_empty v = true ->
  valid_string (PathOptions true None None) (castString v) = false.
Proof.
  destruct v as [| |b| |n|s|d]; cbn; try discriminate; try reflexivity.
  now intros ->.
Qed.

Lemma omitted_number_invalid (v : jsval) :
  omitted_or_empty v = true ->
  valid_number (rating movieSchema) (castNumber v) = false.
Proof.
  destruct v as [| |b| |n|s|d]; cbn; try discriminate; try reflexivity.
  now intros ->.
Qed.

Lemma omitted_date_invalid (v : jsval) :
  omitted_or_empty v = true ->
  valid_date (releaseDate movieSchema) (castDate v) = false.
Proof.
  destruct v as [| |b| |n|s|d]; cbn; try discriminate; try reflexivity.
  now intros ->.
Qed.

(** X3. A create request in which one of title, description, genre,
    rating and releaseDate is omitted or empty is never answered 201 and
    stores nothing: with a file attached the answer is 500, after the
    file has been streamed. *)
Theorem post_missing_field (fresh : oid) (req : request) (w : world)
    (k : string) :
  In k merged_fields ->
  omitted_or_empty (prop (body req) k) = true ->
  movies (snd (post_movies cloudinary fresh req w)) = movies w
  /\ match file req with
     | None =>
         post_movies cloudinary fresh req w
         = (Response 400 (JsonMessage "No file uploaded"), w)
     | Some f =>
         exists e,
           post_movies cloudinary fresh req w
           = (Response 500 (JsonFailure "Error uploading image" e),
              {| movies := movies w; uploaded := uploaded w ++ [f] |})
     end.
Proof.
  intros Hk Hv. rewrite post_movies_cases.
  destruct (file req) as [f|]; [|split; reflexivity]. cbn zeta.
  destruct (cloudinary f) as [url|msg]; [|split; [reflexivity | eauto]].
  destruct (validate _) as [|p ps] eqn:Hval; [|split; [reflexivity | eauto]].
  exfalso. apply validate_nil in Hval as (Ht & Hd & _ & Hg & Hr & Hrd).
  unfold new_Movie, create_of in Ht, Hd, Hg, Hr, Hrd.
  cbn [title description genre rating releaseDate movieSchema]
    in Ht, Hd, Hg, Hr, Hrd.
  cbn in Hk.
  destruct Hk as [<-|[<-|[<-|[<-|[<-|[]]]]]].
  - rewrite omitted_string_invalid in Ht by exact Hv. discriminate.
  - rewrite omitted_string_invalid in Hd by exact Hv. discriminate.
  - rewrite omitted_string_invalid in Hg by exact Hv. discriminate.
  - rewrite omitted_number_invalid in Hr by exact Hv. discriminate.
  - rewrite omitted_date_invalid in Hrd by exact Hv. discriminate.
Qed.

(** X4. POST answers 201 only for a request with a file whose upload
    succeeded and whose record passes the schema: the record sent is the
    one stored under the drawn identifier, which was free; its six fields
    are populated, its rating is within [0, 10] and its [imageUrl] is the
    URL of the upload. *)
Theorem post_created_is_valid (fresh : oid) (req : request) (w : world) :
  status (fst (post_movies cloudinary fresh req w)) = 201 ->
  exists f url m,
    file req = Some f
    /\ cloudinary f = UploadOk url
    /\ movies w !! fresh = None
    /\ post_movies cloudinary fresh req w
       = (Response 201 (JsonDoc (Document fresh m)),
          {| movies := <[fresh := m]> (movies w);
             uploaded := uploaded w ++ [f] |})
    /\ imageUrl m = Some url
    /\ valid_record m.
Proof.
  rewrite post_movies_cases.
  destruct (file req) as [f|]; [|discriminate]. cbn zeta.
  destruct (cloudinary f) as [url|msg] eqn:Hup; [|discriminate].
  destruct (validate _) as [|p ps] eqn:Hval; [|discriminate].
  destruct (movies w !! fresh) eqn:Hfresh; [discriminate|].
  intros _. exists f, url, (values (new_Movie (create_of req url))).
  split; [reflexivity|]. split; [exact Hup|]. split; [reflexivity|].
  split; [reflexivity|]. split; [reflexivity|]. split.
  - now apply validate_populated.
  - apply validate_nil in Hval as (_ & _ & _ & _ & Hr & _).
    unfold values, new_Movie, create_of in *. cbn [rating] in *.
    destruct (castNumber _) as [[r|]|]; try discriminate.
    exists r. split; [reflexivity|]. now apply within_rating.
Qed.

(** X5. POST never touches a record that is already stored, also when
    the drawn identifier is taken. *)
Theorem post_keeps_stored (fresh : oid) (req : request) (w : world)
    (j : oid) (m : movie) :
  movies w !! j = Some m ->
  movies (snd (post_movies cloudinary fresh req w)) !! j = Some m.
Proof.
  intros Hj. rewrite post_movies_cases.
  destruct (file req) as [f|]; [|exact Hj]. cbn zeta.
  destruct (cloudinary f) as [url|msg]; [|exact Hj].
  destruct (validate _); [|exact Hj].
  destruct (movies w !! fresh) eqn:Hfresh; [exact Hj|].
  cbn [snd movies]. rewrite lookup_insert_ne; [exact Hj|].
  intros ->. congruence.
Qed.

(** X6. PUT on an identifier that names no record answers 404 and leaves
    the world as it was: an attached file is not streamed. *)
Theorem put_not_found (req : request) (w : world) (i : oid) :
  names req i ->
  movies w !! i = None ->
  put_movie cloudinary req w = (not_found, w).
Proof.
  intros Hid Hm. pose proof (put_movie_missing req w) as H.
  unfold names in Hid. rewrite Hid in H. now apply H.
Qed.
Lemma streamed_movies (req : request) (w : world) :
  movies (streamed req w) = movies w.
Proof. unfold streamed. now destruct (file req). Qed.

Lemma streamed_uploaded (req : request) (w : world) :
  uploaded (streamed req w)
  = match file req with
    | Some f => (uploaded w ++ [f])%list
    | None => uploaded w
    end.
Proof. unfold streamed. now destruct (file req). Qed.

(** X7. What each request streams to Cloudinary: the attached file, once,
    when the handler reaches its upload (a create always, an update once
    the record is found), whether or not the request then succeeds; and
    nothing otherwise. No handler removes an upload. *)
Theorem uploads_exactly (r : route) (req : request) (w : world) :
  uploaded (snd (handle cloudinary r req w))
  = match file req with
    | Some f =>
        if reaches_upload r req w then (uploaded w ++ [f])%list
        else uploaded w
    | None => uploaded w
    end.
Proof.
  destruct r as [fresh| | | |]; cbn [handle reaches_upload].
  - rewrite post_movies_cases. destruct (file req) as [f|]; [|reflexivity].
    cbn zeta. destruct (cloudinary f); [|reflexivity].
    destruct (validate _); [|reflexivity].
    now destruct (movies w !! fresh).
  - now destruct (file req).
  - rewrite get_movie_cases. now destruct (file req).
  - pose proof (put_movie_missing req w) as Hmiss.
    destruct (castObjectId (params_id req)) as [i|] eqn:Hid.
    + destruct (movies w !! i) as [m|] eqn:Hm.
      * rewrite (put_movie_found cloudinary req w i m Hid Hm).
        rewrite bool_decide_true by eauto.
        assert (forall (p : response * world),
                  snd p = streamed req w
                  \/ uploaded (snd p) = uploaded (streamed req w) ->
                  uploaded (snd p)
                  = match file req with
                    | Some f => (uploaded w ++ [f])%list
                    | None => uploaded w
                    end) as Hup.
        { intros p [->| ->]; apply streamed_uploaded. }
        apply Hup.
        destruct (file req) as [f|];
          [destruct (cloudinary f)|]; try (left; reflexivity);
          destruct (castUpdate _); auto.
      * rewrite (Hmiss eq_refl), bool_decide_false; [now destruct (file req)|].
        intros [x Hx]. discriminate.
    + rewrite Hmiss. now destruct (file req).
  - rewrite delete_movie_cases.
    destruct (castObjectId (params_id req)) as [i|];
      [destruct (movies w !! i)|]; now destruct (file req).
Qed.

(** X8. When the record exists, a file is attached and Cloudinary refuses
    it, PUT answers 400 with Cloudinary's message and the record is as it
    was, whatever the fields of the request. *)
Theorem put_upload_refused (req : request) (w : world) (i : oid) (m : movie)
    (f : buffer) (msg : string) :
  names req i ->
  movies w !! i = Some m ->
  file req = Some f ->
  cloudinary f = UploadFailed msg ->
  put_movie cloudinary req w
  = (Response 400 (JsonFailure "Error updating movie" (UploadErr msg)),
     {| movies := movies w; uploaded := uploaded w ++ [f] |}).
Proof.
  intros Hid Hm Hf Hup. rewrite (put_movie_found cloudinary req w i m Hid Hm).
  unfold streamed. now rewrite Hf, Hup.
Qed.

(** X9. A request changes no record but the one it addresses: every other
    identifier reads after the request as it read before. *)
Theorem other_records_untouched (r : route) (req : request) (w : world)
    (j : oid) :
  target r req <> Some j ->
  movies (snd (handle cloudinary r req w)) !! j = movies w !! j.
Proof.
  destruct r as [fresh| | | |]; cbn [handle target]; intros Hj.
  - rewrite post_movies_cases. destruct (file req) as [f|]; [|reflexivity].
    cbn zeta. destruct (cloudinary f); [|reflexivity].
    destruct (validate _); [|reflexivity].
    destruct (movies w !! fresh); [reflexivity|].
    cbn [snd movies]. apply lookup_insert_ne. congruence.
  - reflexivity.
  - now rewrite get_movie_cases.
  - pose proof (put_movie_missing req w) as Hmiss.
    destruct (castObjectId (params_id req)) as [i|] eqn:Hid;
      [|now rewrite Hmiss].
    destruct (movies w !! i) as [m|] eqn:Hm; [|now rewrite (Hmiss eq_refl)].
    rewrite (put_movie_found cloudinary req w i m Hid Hm).
    assert (forall x : movie, <[i := x]> (movies w) !! j = movies w !! j)
      as Hne by (intros x; apply lookup_insert_ne; congruence).
    destruct (file req) as [f|] eqn:Hf; [destruct (cloudinary f)|];
      try (cbn [snd]; now rewrite streamed_movies);
      (destruct (castUpdate _);
       [cbn [snd]; now rewrite streamed_movies | cbn [snd movies]; apply Hne]).
  - rewrite delete_movie_cases.
    destruct (castObjectId (params_id req)) as [i|]; [|reflexivity].
    destruct (movies w !! i); [|reflexivity].
    cbn [snd movies]. apply lookup_delete_ne. congruence.
Qed.

(** X10. PUT never adds or removes an identifier: the identifiers of the
    collection are the same after any update request. *)
Theorem put_keeps_identifiers (req : request) (w : world) :
  dom (movies (snd (put_movie cloudinary req w))) = dom (movies w).
Proof.
  pose proof (put_movie_missing req w) as Hmiss.
  destruct (castObjectId (params_id req)) as [i|] eqn:Hid;
    [|now rewrite Hmiss].
  destruct (movies w !! i) as [m|] eqn:Hm; [|now rewrite (Hmiss eq_refl)].
  rewrite (put_movie_found cloudinary req w i m Hid Hm).
  assert (forall x : movie, dom (<[i := x]> (movies w)) = dom (movies w))
    as Hdom by (intros x; apply dom_insert_lookup_L; eauto).
  destruct (file req) as [f|] eqn:Hf; [destruct (cloudinary f)|];
    try (cbn [snd]; now rewrite streamed_movies);
    (destruct (castUpdate _);
     [cbn [snd]; now rewrite streamed_movies | cbn [snd movies]; apply Hdom]).
Qed.
Lemma js_or_falsy (v old : jsval) : truthy v = false -> js_or v old = old.
Proof. unfold js_or. now intros ->. Qed.

Lemma js_or_truthy (v old : jsval) : truthy v = true -> js_or v old = v.
Proof. unfold js_or. now intros ->. Qed.

(** X11. On an existing record, a field of the update request that is
    falsy for [||] ([undefined], [null], [false], [NaN], a numeric zero,
    the empty text) leaves the stored field as it was, whether the update
    is applied or refused: the number 0 cannot be set as a rating. *)
Theorem put_falsy_field_kept (req : request) (w : world) (i : oid)
    (m : movie) :
  names req i ->
  movies w !! i = Some m ->
  exists m',
    movies (snd (put_movie cloudinary req w)) !! i = Some m'
    /\ (truthy (prop (body req) "title") = false -> title m' = title m)
    /\ (truthy (prop (body req) "description") = false ->
        description m' = description m)
    /\ (truthy (prop (body req) "genre") = false -> genre m' = genre m)
    /\ (truthy (prop (body req) "rating") = false -> rating m' = rating m)
    /\ (truthy (prop (body req) "releaseDate") = false ->
        releaseDate m' = releaseDate m).
Proof.
  intros Hid Hm. rewrite (put_movie_found cloudinary req w i m Hid Hm).
  assert (movies (streamed req w) !! i = Some m) as Hs
    by now rewrite streamed_movies.
  assert (forall url c,
            castUpdate (update_of req m url) = inr c ->
            let m' := apply_changes c m in
            (truthy (prop (body req) "title") = false -> title m' = title m)
            /\ (truthy (prop (body req) "description") = false ->
                description m' = description m)
            /\ (truthy (prop (body req) "genre") = false ->
                genre m' = genre m)
            /\ (truthy (prop (body req) "rating") = false ->
                rating m' = rating m)
            /\ (truthy (prop (body req) "releaseDate") = false ->
                releaseDate m' = releaseDate m)) as Happlied.
  { intros url c (Ht & Hd & _ & Hg & Hr & Hrd)%castUpdate_inr.
    cbn [update_of title description genre rating releaseDate] in *.
    cbn. repeat split; intros Hv; rewrite (js_or_falsy _ _ Hv) in *.
    - now apply cast_change_of_string.
    - now apply cast_change_of_string.
    - now apply cast_change_of_string.
    - now apply cast_change_of_number.
    - now apply cast_change_of_date. }
  destruct (file req) as [f|]; [destruct (cloudinary f)|];
    try (exists m; split; [exact Hs | tauto]);
    (destruct (castUpdate _) as [path|c] eqn:Hc;
     [exists m; split; [exact Hs | tauto]
     |exists (apply_changes c m); split;
      [cbn [snd movies]; apply lookup_insert_eq | eapply Happlied; eauto]]).
Qed.

(** X12. An update runs no validator: when PUT answers 200, a rating that
    was supplied and casts to a number is the stored rating, whatever the
    number, inside [0, 10] or not. *)
Theorem put_rating_not_validated (req : request) (w : world) (i : oid)
    (m : movie) (r : number) :
  names req i ->
  movies w !! i = Some m ->
  truthy (prop (body req) "rating") = true ->
  castNumber (prop (body req) "rating") = Cast (Some r) ->
  status (fst (put_movie cloudinary req w)) = 200 ->
  rating <$> movies (snd (put_movie cloudinary req w)) !! i = Some (Some r).
Proof.
  intros Hid Hm Hv Hr. rewrite (put_movie_found cloudinary req w i m Hid Hm).
  assert (forall url c,
            castUpdate (update_of req m url) = inr c ->
            rating (apply_changes c m) = Some r) as Happlied.
  { intros url c (_ & _ & _ & _ & Hc & _)%castUpdate_inr.
    cbn [update_of rating] in Hc.
    rewrite (js_or_truthy _ _ Hv), (cast_change_truthy _ _ Hv), Hr in Hc.
    injection Hc as Hc. unfold apply_changes. cbn [rating].
    now rewrite <- Hc. }
  destruct (file req) as [f|]; [destruct (cloudinary f)|];
    try discriminate;
    (destruct (castUpdate _) as [path|c] eqn:Hc; [discriminate|];
     intros _; cbn [snd movies]; rewrite lookup_insert_eq; cbn;
     f_equal; eapply Happlied; eauto).
Qed.

(** X13. A record sent in a response is the record stored: whenever a
    handler answers with a document, the document's identifier is the one
    the request addresses and the collection holds that record under
    it. *)
Theorem sent_record_is_stored (r : route) (req : request) (w : world)
    (j : oid) (m : movie) :
  sent (fst (handle cloudinary r req w)) = JsonDoc (Document j m) ->
  target r req = Some j
  /\ movies (snd (handle cloudinary r req w)) !! j = Some m.
Proof.
  destruct r as [fresh| | | |]; cbn [handle target].
  - rewrite post_movies_cases. destruct (file req) as [f|]; [|discriminate].
    cbn zeta. destruct (cloudinary f); [|discriminate].
    destruct (validate _); [|discriminate].
    destruct (movies w !! fresh); [discriminate|].
    cbn [fst snd sent movies]. intros [= <- <-].
    split; [reflexivity | apply lookup_insert_eq].
  - discriminate.
  - rewrite get_movie_cases.
    destruct (castObjectId (params_id req)) as [i|]; [|discriminate].
    destruct (movies w !! i) as [m0|] eqn:Hm; [|discriminate].
    cbn [fst snd sent]. intros [= <- <-]. auto.
  - pose proof (put_movie_missing req w) as Hmiss.
    destruct (castObjectId (params_id req)) as [i|] eqn:Hid;
      [|rewrite Hmiss; discriminate].
    destruct (movies w !! i) as [m0|] eqn:Hm;
      [|rewrite (Hmiss eq_refl); discriminate].
    rewrite (put_movie_found cloudinary req w i m0 Hid Hm).
    destruct (file req) as [f|]; [destruct (cloudinary f)|];
      try discriminate;
      (destruct (castUpdate _); [discriminate|];
       cbn [fst snd sent movies]; intros [= <- <-];
       split; [reflexivity | apply lookup_insert_eq]).
  - rewrite delete_movie_cases.
    destruct (castObjectId (params_id req)) as [i|]; [|discriminate].
    destruct (movies w !! i); discriminate.
Qed.


(** X15. A create followed by a delete of the drawn identifier leaves the
    collection as it was before the create, whether the create succeeded
    or not. *)
Theorem post_then_delete (fresh : oid) (req dreq : request) (w : world) :
  movies w !! fresh = None ->
  names dreq fresh ->
  movies (snd (delete_movie dreq (snd (post_movies cloudinary fresh req w))))
  = movies w.
Proof.
  intros Hfresh Hid. unfold names in Hid.
  rewrite delete_movie_cases, Hid, post_movies_cases.
  destruct (file req) as [f|]; cbn zeta;
    [|cbn [snd movies]; now rewrite Hfresh].
  destruct (cloudinary f); [|cbn [snd movies]; now rewrite Hfresh].
  destruct (validate _); [|cbn [snd movies]; now rewrite Hfresh].
  rewrite Hfresh. cbn [snd movies]. rewrite lookup_insert_eq.
  cbn [snd movies]. now apply delete_insert_id.
Qed.

(** X16. A second DELETE of the same identifier answers 404 and changes
    nothing, whatever the first one did. *)
Theorem delete_twice (req : request) (w : world) (i : oid) :
  names req i ->
  delete_movie req (snd (delete_movie req w))
  = (not_found, snd (delete_movie req w)).
Proof.
  intros Hid. unfold names in Hid. rewrite !delete_movie_cases, Hid.
  destruct (movies w !! i) eqn:Hm; cbn [snd movies].
  - now rewrite lookup_delete_eq.
  - now rewrite Hm.
Qed.

Lemma validate_valid_record (d : draft) :
  validate d = [] -> valid_record (values d).
Proof.
  intros Hval. split; [now apply validate_populated|].
  apply validate_nil in Hval as (_ & _ & _ & _ & Hr & _).
  unfold values. cbn [rating].
  destruct (rating d) as [[r|]|]; try discriminate.
  exists r. split; [reflexivity|]. now apply within_rating.
Qed.

Lemma store_valid_step (r : route) (req : request) (w : world) :
  r <> PUT_movie ->
  store_valid w -> store_valid (snd (handle cloudinary r req w)).
Proof.
  intros Hr Hw. destruct r as [fresh| | | |]; cbn [handle];
    try contradiction.
  - rewrite post_movies_cases. destruct (file req) as [f|]; [|exact Hw].
    cbn zeta. destruct (cloudinary f); [|exact Hw].
    destruct (validate _) eqn:Hval; [|exact Hw].
    destruct (movies w !! fresh); [exact Hw|].
    intros j m Hj. cbn [snd movies] in Hj.
    apply lookup_insert_Some in Hj as [[_ <-]|[_ Hj]].
    + now apply validate_valid_record.
    + now apply (Hw j).
  - exact Hw.
  - rewrite get_movie_cases. exact Hw.
  - rewrite delete_movie_cases.
    destruct (castObjectId (params_id req)) as [i|]; [|exact Hw].
    destruct (movies w !! i); [|exact Hw].
    intros j m Hj. cbn [snd movies] in Hj.
    apply lookup_delete_Some in Hj as [_ Hj]. now apply (Hw j).
Qed.

(** X17. Through any sequence of requests that holds no update, every
    stored record keeps passing the schema: six fields populated and the
    rating within [0, 10]. *)
Theorem ratings_in_range_without_update (l : list (route * request))
    (w : world) :
  no_update l ->
  store_valid w ->
  store_valid (serve cloudinary l w).
Proof.
  revert w. induction l as [|[r req] l IH]; intros w Hl Hw; cbn [serve].
  - exact Hw.
  - inversion Hl as [|p l' Hr Hl']; subst.
    apply IH; [exact Hl'|]. now apply store_valid_step.
Qed.
End Coverage.

(** ** The worked examples, checked *)

Lemma cdn_nonempty (f : buffer) (url : string) :
  cdn f = UploadOk url -> url <> "".
Proof. intros [= <-]. discriminate. Defined.

Lemma store_ok_empty : store_ok empty_world.
Proof. intros i m H. discriminate H. Defined.

Lemma populated_inception : populated inception.
Proof.
  unfold populated, filled, present. cbn.
  repeat split; eexists; try split; try reflexivity; discriminate.
Defined.

Lemma post_creates_witness :
  post_movies (rt := node) cdn id_value create empty_world
  = (Response 201 (JsonDoc (Document id_value inception)), one_movie)
  /\ get_movie (rt := node) (by_id ∅ None) one_movie
     = (Response 200 (JsonDoc (Document id_value inception)), one_movie).
Proof.
  assert (reads_as (rt := node) (body create) inception) as Hreads
    by (repeat split; vm_compute; reflexivity).
  assert (valid_fields inception) as Hvalid.
  { destruct populated_inception as (Pt & Pd & _ & Pg & _ & Prd).
    repeat split; try assumption.
    exists (Fin 9%Q). split; [reflexivity|]. cbn. split; discriminate. }
  destruct (post_creates (rt := node) cdn id_value create empty_world poster
              cdn_url inception eq_refl eq_refl ltac:(discriminate) Hreads
              Hvalid eq_refl) as (Hpost & _ & _ & Hget).
  split; [exact Hpost | apply (Hget (by_id ∅ None)); reflexivity].
Defined.

Lemma post_without_file_witness :
  post_movies (rt := node) cdn id_value
    {| params_id := ""; body := inception_form; file := None |} one_movie
  = (Response 400 (JsonMessage "No file uploaded"), one_movie).
Proof. apply post_without_file. reflexivity. Defined.

Lemma post_rating_out_of_range_witness :
  let req := {| params_id := "";
                body := <["rating" := JStr "11"]> inception_form;
                file := Some poster |} in
  movies (snd (post_movies (rt := node) cdn id_value req empty_world))
  = movies empty_world
  /\ (fst (post_movies (rt := node) cdn id_value req empty_world)
      = Response 400 (JsonMessage "No file uploaded")
      \/ exists e,
          fst (post_movies (rt := node) cdn id_value req empty_world)
          = Response 500 (JsonFailure "Error uploading image" e)).
Proof.
  intros req.
  apply (post_rating_out_of_range (rt := node) cdn id_value req empty_world
           (Fin 11%Q)).
  - vm_compute. reflexivity.
  - right. reflexivity.
Defined.

Lemma delete_movie_answers_witness :
  delete_movie (rt := node) (by_id ∅ None) one_movie
  = (Response 200 (JsonMessage "Movie deleted successfully"),
     {| movies := delete id_value (movies one_movie);
        uploaded := uploaded one_movie |})
  /\ delete_movie (rt := node) (by_id ∅ None) empty_world
     = (not_found, empty_world).
Proof.
  split.
  - exact (proj1 (delete_movie_answers (rt := node) (by_id ∅ None) one_movie
                    id_value eq_refl)).
  - exact (delete_movie_answers (rt := node) (by_id ∅ None) empty_world
             id_value eq_refl).
Defined.

Lemma put_without_file_keeps_imageUrl_witness :
  imageUrl
    <$> movies (snd (put_movie (rt := node) cdn_down
                       (by_id (<["title" := JStr "Inception (2010)"]> ∅) None)
                       one_movie)) !! id_value
  = Some (Some cdn_url).
Proof.
  apply (put_without_file_keeps_imageUrl (rt := node) cdn_down
           (by_id (<["title" := JStr "Inception (2010)"]> ∅) None)
           one_movie id_value inception); reflexivity.
Defined.

Lemma populated_preserved_witness :
  store_ok
    (serve (rt := node) cdn
       [(POST_movies id_value, create);
        (PUT_movie, by_id (<["rating" := JStr "0"]> ∅) (Some poster));
        (GET_movie, by_id ∅ None);
        (DELETE_movie, bad_id)]
       empty_world).
Proof.
  apply (populated_preserved (rt := node) cdn cdn_nonempty).
  exact store_ok_empty.
Defined.

Lemma get_movie_answers_witness :
  get_movie (rt := node) (by_id ∅ None) one_movie
  = (Response 200 (JsonDoc (Document id_value inception)), one_movie)
  /\ get_movie (rt := node) (by_id ∅ None) empty_world
     = (not_found, empty_world)
  /\ get_movie (rt := node) bad_id one_movie
     = (Response 500 (JsonFailure "Error fetching movie" (CastErr "_id")),
        one_movie).
Proof.
  split; [|split].
  - apply (proj1 (get_movie_answers (rt := node) (by_id ∅ None) one_movie)
             id_value inception); reflexivity.
  - apply (proj1 (proj2 (get_movie_answers (rt := node) (by_id ∅ None)
                           empty_world)) id_value); reflexivity.
  - apply (proj2 (proj2 (get_movie_answers (rt := node) bad_id one_movie))).
    reflexivity.
Defined.

(** A malformed identifier is answered 500 where an identifier that names
    no record is answered 404: GET does distinguish the two. *)
Lemma get_movie_malformed_is_not_404 :
  malformed (rt := node) bad_id
  /\ status (fst (get_movie (rt := node) bad_id empty_world)) = 500
  /\ status (fst (get_movie (rt := node) (by_id ∅ None) empty_world)) = 404.
Proof. repeat split. Qed.

Lemma client_imageUrl_ignored_witness :
  let r1 := by_id inception_form (Some poster) in
  let r2 := by_id (<["imageUrl" := JStr "http://evil.example/x.png"]>
                     inception_form) (Some poster) in
  post_movies (rt := node) cdn 7 r1 one_movie
  = post_movies (rt := node) cdn 7 r2 one_movie
  /\ put_movie (rt := node) cdn r1 one_movie
     = put_movie (rt := node) cdn r2 one_movie.
Proof.
  intros r1 r2. apply client_imageUrl_ignored.
  split; [reflexivity|]. split; [reflexivity|]. intros k Hk. subst r1 r2. cbn [body by_id].
  symmetry. apply lookup_insert_ne. congruence.
Defined.

Lemma malformed_put_delete_witness :
  put_movie (rt := node) cdn bad_id one_movie
  = (Response 400 (JsonFailure "Error updating movie" (CastErr "_id")),
     one_movie)
  /\ delete_movie (rt := node) bad_id one_movie
     = (Response 500 (JsonFailure "Error deleting movie" (CastErr "_id")),
        one_movie).
Proof. apply malformed_put_delete. reflexivity. Defined.

Lemma put_applies_fallback_merge_witness :
  let cdn2 := fun _ : buffer => UploadOk "https://res.cloudinary.com/demo/v2.jpg" in
  let req := by_id (<["rating" := JStr "0"]> (<["title" := JStr ""]> ∅))
               (Some poster) in
  let merged :=
    {| title := Some "Inception";
       description := Some "A thief enters dreams";
       imageUrl := Some "https://res.cloudinary.com/demo/v2.jpg";
       genre := Some "Sci-Fi";
       rating := Some (Fin 0%Q);
       releaseDate := Some 1279238400000%Z |} in
  put_movie (rt := node) cdn2 req one_movie
  = (Response 200 (JsonDoc (Document id_value merged)),
     {| movies := <[id_value := merged]> (movies one_movie);
        uploaded := [poster; poster] |}).
Proof.
  intros cdn2 req merged.
  assert (forall k, In k merged_fields ->
                    clear_cut (prop (body req) k)) as Hclear.
  { intros k Hk. cbn in Hk.
    repeat (destruct Hk as [<-|Hk]); try contradiction;
      ((left; reflexivity) || (right; reflexivity)). }
  exact (eq_trans
           (put_applies_fallback_merge (rt := node) cdn2 req one_movie
              id_value inception eq_refl eq_refl Hclear)
           eq_refl).
Defined.

(** A rating supplied as a text that is no number is not set, and no
    updated record is returned: the answer is 400 and the stored record is
    as before. *)
Lemma put_uncastable_rating_refused :
  let req := by_id (<["rating" := JStr "abc"]> ∅) None in
  omitted_or_empty (prop (body req) "rating") = false
  /\ put_movie (rt := node) cdn req one_movie
     = (Response 400 (JsonFailure "Error updating movie" (CastErr "rating")),
        one_movie)
  /\ movies one_movie !! id_value = Some inception.
Proof. repeat split. Qed.

(** The rating of a JSON body: the number 0 is falsy for [||], so the
    previous rating stays, while the text "0" of a form sets it. *)
Example put_numeric_zero_keeps_rating :
  put_movie (rt := node) cdn (by_id (<["rating" := JNum (Fin 0%Q)]> ∅) None)
    one_movie
  = (Response 200 (JsonDoc (Document id_value inception)), one_movie).
Proof. reflexivity. Qed.

Example put_text_zero_sets_rating :
  rating <$> movies (snd (put_movie (rt := node) cdn
                            (by_id (<["rating" := JStr "0"]> ∅) None)
                            one_movie)) !! id_value
  = Some (Some (Fin 0%Q)).
Proof. reflexivity. Qed.

(** A rating of 11 fails validation after the upload: the answer is 500,
    nothing is stored, and the uploaded image stays with Cloudinary. *)
Example post_rating_11 :
  post_movies (rt := node) cdn id_value
    {| params_id := "";
       body := <["rating" := JStr "11"]> inception_form;
       file := Some poster |} empty_world
  = (Response 500
       (JsonFailure "Error uploading image" (ValidationErr ["rating"])),
     {| movies := ∅; uploaded := [poster] |}).
Proof. reflexivity. Qed.

(** ** The further properties on the worked examples *)

Lemma post_upload_refused_witness :
  post_movies (rt := node) cdn_down id_value create empty_world
  = (Response 500
       (JsonFailure "Error uploading image" (UploadErr "Request Timeout")),
     {| movies := ∅; uploaded := [poster] |}).
Proof.
  exact (post_upload_refused (rt := node) cdn_down id_value create empty_world
           poster "Request Timeout" eq_refl eq_refl).
Defined.

Lemma post_missing_field_witness :
  let req := {| params_id := "";
                body := delete "title" inception_form;
                file := Some poster |} in
  movies (snd (post_movies (rt := node) cdn id_value req empty_world))
  = movies empty_world
  /\ exists e,
      post_movies (rt := node) cdn id_value req empty_world
      = (Response 500 (JsonFailure "Error uploading image" e),
         {| movies := movies empty_world;
            uploaded := uploaded empty_world ++ [poster] |}).
Proof.
  intros req.
  apply (post_missing_field (rt := node) cdn id_value req empty_world "title").
  - left. reflexivity.
  - reflexivity.
Defined.

Lemma post_created_is_valid_witness :
  exists f url m,
    file create = Some f
    /\ cdn f = UploadOk url
    /\ movies empty_world !! id_value = None
    /\ post_movies (rt := node) cdn id_value create empty_world
       = (Response 201 (JsonDoc (Document id_value m)),
          {| movies := <[id_value := m]> (movies empty_world);
             uploaded := uploaded empty_world ++ [f] |})
    /\ imageUrl m = Some url
    /\ valid_record m.
Proof.
  apply (post_created_is_valid (rt := node) cdn id_value create empty_world).
  reflexivity.
Defined.

Lemma post_keeps_stored_witness :
  movies (snd (post_movies (rt := node) cdn id_value
                 {| params_id := "";
                    body := <["title" := JStr "Tenet"]> inception_form;
                    file := Some poster |} one_movie)) !! id_value
  = Some inception.
Proof. apply post_keeps_stored. reflexivity. Defined.

Lemma put_not_found_witness :
  put_movie (rt := node) cdn (by_id inception_form (Some poster)) empty_world
  = (not_found, empty_world).
Proof. apply (put_not_found (rt := node) cdn _ _ id_value); reflexivity. Defined.

Lemma put_upload_refused_witness :
  put_movie (rt := node) cdn_down
    (by_id (<["title" := JStr "Tenet"]> ∅) (Some poster)) one_movie
  = (Response 400
       (JsonFailure "Error updating movie" (UploadErr "Request Timeout")),
     {| movies := movies one_movie;
        uploaded := uploaded one_movie ++ [poster] |}).
Proof.
  apply (put_upload_refused (rt := node) cdn_down _ one_movie id_value
           inception poster "Request Timeout"); reflexivity.
Defined.

Lemma other_records_untouched_witness :
  movies (snd (handle (rt := node) cdn PUT_movie
                 (by_id (<["title" := JStr "Tenet"]> ∅) None) one_movie)) !! 7
  = movies one_movie !! 7.
Proof.
  apply (other_records_untouched (rt := node) cdn PUT_movie). discriminate.
Defined.

Lemma put_falsy_field_kept_witness :
  let req := by_id (<["rating" := JNum (Fin 0%Q)]>
                      (<["title" := JStr "Tenet"]> ∅)) None in
  exists m',
    movies (snd (put_movie (rt := node) cdn req one_movie)) !! id_value
    = Some m'
    /\ rating m' = Some (Fin 9%Q).
Proof.
  intros req.
  destruct (put_falsy_field_kept (rt := node) cdn req one_movie id_value
              inception eq_refl eq_refl)
    as (m' & Hm' & _ & _ & _ & Hrating & _).
  exists m'. split; [exact Hm' | exact (Hrating eq_refl)].
Defined.

Lemma put_rating_not_validated_witness :
  let req := by_id (<["rating" := JStr "11"]> ∅) None in
  rating <$> movies (snd (put_movie (rt := node) cdn req one_movie))
               !! id_value
  = Some (Some (Fin 11%Q)).
Proof.
  intros req.
  apply (put_rating_not_validated (rt := node) cdn req one_movie id_value
           inception (Fin 11%Q)); reflexivity.
Defined.

Lemma sent_record_is_stored_witness :
  let req := by_id (<["genre" := JStr "Heist"]> ∅) None in
  let m := {| title := Some "Inception";
              description := Some "A thief enters dreams";
              imageUrl := Some cdn_url;
              genre := Some "Heist";
              rating := Some (Fin 9%Q);
              releaseDate := Some 1279238400000%Z |} in
  target (rt := node) PUT_movie req = Some id_value
  /\ movies (snd (handle (rt := node) cdn PUT_movie req one_movie)) !! id_value
     = Some m.
Proof.
  intros req m.
  apply (sent_record_is_stored (rt := node) cdn PUT_movie req one_movie).
  reflexivity.
Defined.

Lemma post_then_delete_witness :
  movies (snd (delete_movie (rt := node) (by_id ∅ None)
                 (snd (post_movies (rt := node) cdn id_value create
                         empty_world))))
  = movies empty_world.
Proof. apply post_then_delete; reflexivity. Defined.

Lemma delete_twice_witness :
  delete_movie (rt := node) (by_id ∅ None)
    (snd (delete_movie (rt := node) (by_id ∅ None) one_movie))
  = (not_found, snd (delete_movie (rt := node) (by_id ∅ None) one_movie)).
Proof. apply (delete_twice (rt := node) _ _ id_value). reflexivity. Defined.

Lemma ratings_in_range_without_update_witness :
  store_valid
    (serve (rt := node) cdn
       [(POST_movies id_value, create);
        (GET_movies, bad_id);
        (DELETE_movie, bad_id);
        (POST_movies 7, create)]
       empty_world).
Proof.
  apply (ratings_in_range_without_update (rt := node) cdn).
  - repeat constructor; discriminate.
  - intros i m H. discriminate H.
Defined.
